(** * RAG-LLM: retrieval core of [index.js]

    A shallow embedding of the command-line script [index.js]: the cosine
    similarity of two embedding vectors, the embedding client with its
    zero-vector fallback, the document loader, the retriever (score, filter,
    sort) and the orchestrator [main].

    - JavaScript numbers are IEEE 754 binary64 values; they are modelled by
      Rocq's primitive floats ([PrimFloat]), whose operations are specified
      by [FloatAxioms] over [SpecFloat].
    - Exceptions and console output are explicit: a computation yields the
      events it emitted and either a value or a thrown error (the monad [M]).
    - What lies outside the process (the embedding and chat services, the
      knowledge-base directory, the typed question) enters as data: the
      outcome of each call. *)

From Stdlib Require Import ZArith List String Ascii Bool Lia.
From Stdlib Require Import Permutation Sorted.
From Stdlib Require Import Floats.
Import ListNotations.

Local Open Scope list_scope.
#[local] Set Warnings "-inexact-float".

(* ================================================================== *)
(** ** JavaScript values that reach the vector code *)

(** An embedding is whatever [result.data[0].embedding] evaluates to.  An
    array is an array of numbers (the data model of an embedding vector);
    arrays holding strings or objects, whose arithmetic goes through
    JavaScript's [ToNumber] coercion, are outside this model. *)
Inductive value : Type :=
| VUndefined
| VNull
| VBool (b : bool)
| VNum (x : float)
| VStr (s : string)
| VArr (xs : list float)
| VObj.

(** JavaScript truthiness ([!v] is its negation). *)
Definition truthy (v : value) : bool :=
  match v with
  | VUndefined | VNull => false
  | VBool b => b
  | VNum x => negb (PrimFloat.eqb x 0 || PrimFloat.is_nan x)
  | VStr s => negb (String.eqb s EmptyString)
  | VArr _ | VObj => true
  end.

(** [Array.isArray]. *)
Definition isArray (v : value) : bool :=
  match v with
  | VArr _ => true
  | _ => false
  end.

(** The elements of an array (only read after [Array.isArray] succeeded). *)
Definition elems (v : value) : list float :=
  match v with
  | VArr xs => xs
  | _ => []
  end.

(* ================================================================== *)
(** ** Effects: console output, external requests, exceptions *)

(** [{ filename, content }]. *)
Record Document : Type := mkDocument { filename : string; content : string }.

(** What a run does that can be observed from outside. *)
Inductive event : Type :=
| ConsoleLog (msg : string)               (* console.log of a message or text *)
| ConsoleError (msg : string)             (* console.error, by its message *)
| EmbeddingRequest (text : string)        (* the POST to the embeddings endpoint *)
| ChatRequest (system user : string)      (* one call of openai.chat.completions.create, by its two messages;
                                             what the client library sends for it is inside the call *)
| Question (prompt : string)              (* rl.question *)
| LogDocuments (documents : list Document) (* console.log(documents) *)
| LogContextFrom (names : string)         (* the "Context from:" line *)
| LogAnswer (answer : string)             (* the "Answer:" line *)
| RlClose.                                (* rl.close() *)

(** What a [throw] or a rejected promise carries. *)
Inductive error : Type :=
| TypeError
| SyntaxError
| FetchError
| FsError
| ApiError (status : Z).

Inductive completion (A : Type) : Type :=
| Normal (a : A)
| Throw (e : error).

Arguments Normal {A} a.
Arguments Throw {A} e.

(** A computation: the events it emitted, in order, and how it completed. *)
Definition M (A : Type) : Type := (list event * completion A)%type.

Definition ret {A} (a : A) : M A := ([], Normal a).

Definition throw {A} (e : error) : M A := ([], Throw e).

Definition emit (ev : event) : M unit := ([ev], Normal tt).

Definition bind {A B} (m : M A) (k : A -> M B) : M B :=
  match m with
  | (t, Normal a) => let (t', r) := k a in (t ++ t', r)
  | (t, Throw e) => (t, Throw e)
  end.

(** [try { body } catch (error) { handler }]. *)
Definition try_catch {A} (body : M A) (handler : error -> M A) : M A :=
  match body with
  | (t, Normal a) => (t, Normal a)
  | (t, Throw e) => let (t', r) := handler e in (t ++ t', r)
  end.

Declare Scope js_scope.
Delimit Scope js_scope with js.
Notation "x <- m ;; k" := (bind m (fun x => k))
  (at level 61, m at next level, right associativity) : js_scope.
Notation "m ;; k" := (bind m (fun _ => k))
  (at level 61, right associativity) : js_scope.

Definition trace {A} (m : M A) : list event := fst m.
Definition outcome {A} (m : M A) : completion A := snd m.

Local Open Scope js_scope.

(* ================================================================== *)
(** ** Vector math: [cosineSimilarity] *)

(** [vecA[i]]: reading past the end gives [undefined], which arithmetic turns
    into NaN. *)
Definition index (xs : list float) (i : nat) : float := nth i xs nan.

(** [Array.from({length}, (_, i) => vecA[i] * vecB[i])]. *)
Definition products (vecA vecB : list float) (length : nat) : list float :=
  map (fun i => (index vecA i * index vecB i)%float) (seq 0 length).

(** [xs.reduce((sum, val) => sum + val, 0)]. *)
Definition reduce_sum (xs : list float) : float :=
  fold_left (fun sum val => (sum + val)%float) xs 0%float.

(** [xs.reduce((sum, a) => sum + a * a, 0)]. *)
Definition reduce_squares (xs : list float) : float :=
  fold_left (fun sum a => (sum + a * a)%float) xs 0%float.

(** [xs.slice(0, length)]. *)
Definition slice0 (xs : list float) (length : nat) : list float :=
  firstn length xs.

Definition dotProduct (vecA vecB : list float) (length : nat) : float :=
  reduce_sum (products vecA vecB length).

Definition norm (vec : list float) (length : nat) : float :=
  PrimFloat.sqrt (reduce_squares (slice0 vec length)).

Definition cosineSimilarity (vecA vecB : value) : M float :=
  if negb (truthy vecA) || negb (truthy vecB)
     || negb (isArray vecA) || negb (isArray vecB)
  then
    emit (ConsoleError "Invalid vectors provided to cosineSimilarity") ;;
    ret 0%float
  else
    let length := Nat.min (List.length (elems vecA)) (List.length (elems vecB)) in
    if Nat.eqb length 0 then ret 0%float
    else
      let dotProduct := dotProduct (elems vecA) (elems vecB) length in
      let normA := norm (elems vecA) length in
      let normB := norm (elems vecB) length in
      if PrimFloat.eqb normA 0 || PrimFloat.eqb normB 0 then ret 0%float
      else ret (dotProduct / (normA * normB))%float.

(* ================================================================== *)
(** ** Embedding client: [generateEmbeddings], [getEmbedding] *)

(** What the parsed response body gives for [result.data[0].embedding]. *)
Inductive result_shape : Type :=
| NoFirstItem
    (* result, result.data or result.data[0] is undefined or null:
       reading the next property raises a TypeError *)
| FirstItem (embedding : value)
    (* result.data[0] exists; its [embedding] property evaluates to this
       value, [VUndefined] when the property is absent *).

Inductive body_outcome : Type :=
| JsonRejects                     (* response.json() rejects *)
| JsonResult (result : result_shape).

(** The outcome of one [fetch] of the embeddings endpoint. *)
Inductive fetch_outcome : Type :=
| FetchRejects                    (* transport failure *)
| Response (ok : bool) (status : Z) (body : body_outcome).

(** [new Array(512).fill(0)]. *)
Definition fallback_vector : value := VArr (repeat 0%float 512).

Definition generateEmbeddings (o : fetch_outcome) (text : string) : M value :=
  try_catch
    (emit (EmbeddingRequest text) ;;
     match o with
     | FetchRejects => throw FetchError
     | Response ok status body =>
       if negb ok then throw (ApiError status)
       else
         match body with
         | JsonRejects => throw SyntaxError
         | JsonResult NoFirstItem => throw TypeError
         | JsonResult (FirstItem embedding) =>
           emit (ConsoleLog "Embedding generated successfully") ;;
           ret embedding
         end
     end)
    (fun error =>
       emit (ConsoleError "Error generating embeddings:") ;;
       ret fallback_vector).

Definition getEmbedding (o : fetch_outcome) (text : string) : M value :=
  emit (ConsoleLog text) ;;
  generateEmbeddings o text.

(* ================================================================== *)
(** ** Document loader: [loadDocuments] *)

(** What reading and parsing one file of the knowledge base gives.  A [data]
    field that holds a value is text (the documents are texts); a field
    that holds null, false or 0 counts as absent, as [||] treats it. *)
Inductive file_state : Type :=
| Unreadable                      (* fs.readFileSync raises *)
| NotJson                         (* JSON.parse raises *)
| JsonNull                        (* parses to null: [content.data] raises *)
| JsonValue (data : option string)
    (* parses to a value whose [data] property is the given text, [None]
       when the property is absent *).

Record dir_entry : Type := mkEntry { name : string; state : file_state }.

(** [s.endsWith(suffix)]. *)
Definition endsWith (s suffix : string) : bool :=
  let n := String.length s in
  let k := String.length suffix in
  Nat.leb k n && String.eqb (substring (n - k) k s) suffix.

(** [content.data || ""]. *)
Definition or_empty (data : option string) : string :=
  match data with
  | Some s => if String.eqb s EmptyString then EmptyString else s
  | None => EmptyString
  end.

Definition read_data (st : file_state) : M (option string) :=
  match st with
  | Unreadable => throw FsError
  | NotJson => throw SyntaxError
  | JsonNull => throw TypeError
  | JsonValue data => ret data
  end.

Definition loadDocument (e : dir_entry) : M Document :=
  try_catch
    (data <- read_data (state e) ;;
     ret (mkDocument (name e) (or_empty data)))
    (fun error =>
       emit (ConsoleError ("Error loading " ++ name e ++ ":")) ;;
       ret (mkDocument (name e) EmptyString)).

(** [xs.map(f)] for an effectful callback, left to right. *)
Fixpoint mapM {A B} (f : A -> M B) (xs : list A) : M (list B) :=
  match xs with
  | [] => ret []
  | x :: xs' => y <- f x ;; ys <- mapM f xs' ;; ret (y :: ys)
  end.

(** [listing] is what [fs.readdirSync] returned for the knowledge base: the
    function is modelled from there on (a throw of [readdirSync] itself, which
    no [try] covers, has no listing and is not a case of this definition). *)
Definition loadDocuments (listing : list dir_entry) : M (list Document) :=
  let files := filter (fun e => endsWith (name e) ".json") listing in
  mapM loadDocument files.

(* ================================================================== *)
(** ** Retriever: [retrieveRelevantDocsWithEmbeddings] *)

(** [{ ...doc, score }]. *)
Record ScoredDocument : Type :=
  mkScored { doc_of : Document; score : float }.

(** The comparator [(a, b) => b.score - a.score]. *)
Definition by_score_desc (a b : ScoredDocument) : float :=
  (score b - score a)%float.

(** [Array.prototype.sort(comparefn)]: the sort is stable, and [x] moves
    behind [y] only when [comparefn(x, y) > 0] (a NaN comparison counts as
    0).  For a consistent comparator this fixes the result. *)
Fixpoint sort_insert {A} (comparefn : A -> A -> float) (x : A) (l : list A)
  : list A :=
  match l with
  | [] => [x]
  | y :: l' =>
    if PrimFloat.ltb 0 (comparefn x y) then y :: sort_insert comparefn x l'
    else x :: y :: l'
  end.

Definition sort {A} (comparefn : A -> A -> float) (l : list A) : list A :=
  fold_right (sort_insert comparefn) [] l.

(** The embedding service as the retriever meets it: the outcome of the
    request for the query and of the request for each document, by position. *)
Record embedding_service : Type :=
  mkService { for_query : fetch_outcome; for_document : nat -> fetch_outcome }.

Definition scoreDocument (o : fetch_outcome) (queryEmbedding : value)
    (doc : Document) : M ScoredDocument :=
  try_catch
    (embedding <- getEmbedding o (content doc) ;;
     score <- cosineSimilarity queryEmbedding embedding ;;
     ret (mkScored doc score))
    (fun error =>
       emit (ConsoleError ("Error processing document " ++ filename doc ++ ":")) ;;
       ret (mkScored doc 0%float)).

(** [Promise.all(documents.map(async (doc) => ...))]: the results come in
    document order, and the requests are taken in that order too.  (In a run
    the console lines of different documents may interleave; nothing below
    depends on their relative order.) *)
Fixpoint scoreDocuments (svc : nat -> fetch_outcome) (i : nat)
    (queryEmbedding : value) (documents : list Document)
  : M (list ScoredDocument) :=
  match documents with
  | [] => ret []
  | doc :: rest =>
    d <- scoreDocument (svc i) queryEmbedding doc ;;
    ds <- scoreDocuments svc (S i) queryEmbedding rest ;;
    ret (d :: ds)
  end.

Definition retrieveRelevantDocsWithEmbeddings (svc : embedding_service)
    (query : string) (documents : list Document) : M (list ScoredDocument) :=
  try_catch
    (emit (ConsoleLog "Generating query embedding...") ;;
     queryEmbedding <- getEmbedding (for_query svc) query ;;
     if negb (truthy queryEmbedding) || negb (isArray queryEmbedding) then
       emit (ConsoleError "Failed to generate valid embedding for query") ;;
       ret []
     else
       emit (ConsoleLog "Comparing with document embeddings...") ;;
       docsWithScores <-
         scoreDocuments (for_document svc) 0 queryEmbedding documents ;;
       ret (sort by_score_desc
              (filter (fun doc => PrimFloat.ltb 0.5 (score doc)) docsWithScores)))
    (fun error =>
       emit (ConsoleError "Error in retrieveRelevantDocsWithEmbeddings:") ;;
       ret []).

(* ================================================================== *)
(** ** Answer generator and orchestrator *)

Definition newline : string := String (ascii_of_nat 10) EmptyString.

(** [xs.join(sep)] on strings. *)
Definition join (sep : string) (xs : list string) : string :=
  String.concat sep xs.

Definition system_prompt : string :=
  "You are a helpful assistant that answers questions based on the provided context. If the answer cannot be found in the context, just say 'I don't have enough information to answer this question.'".

Definition user_prompt (query context : string) : string :=
  "Context: " ++ context ++ newline ++ newline ++ "Question: " ++ query
  ++ newline ++ newline ++ "Answer:".

(** The outcome of the chat-completion call. *)
Inductive chat_outcome : Type :=
| ChatRejects
| ChatNoChoice                    (* completion.choices[0] is missing *)
| ChatAnswer (text : string).

Definition generateAnswerWithOpenAI (o : chat_outcome) (query context : string)
  : M string :=
  try_catch
    (emit (ConsoleLog "Generating answer using OpenAI...") ;;
     emit (ChatRequest system_prompt (user_prompt query context)) ;;
     match o with
     | ChatRejects => throw FetchError
     | ChatNoChoice => throw TypeError
     | ChatAnswer text => ret text
     end)
    (fun error =>
       emit (ConsoleError "Error generating answer with OpenAI:") ;;
       ret "Sorry, I encountered an error while generating an answer."%string).

(** Everything outside the process that one run of [main] meets. *)
Record world : Type :=
  mkWorld { listing : list dir_entry;
            typed : string;
            embeddings : embedding_service;
            chat : chat_outcome }.

(** [question(prompt)], on a run in which the prompt is answered: the promise
    resolves with the typed text. *)
Definition question (w : world) (prompt : string) : M string :=
  emit (Question prompt) ;; ret (typed w).

Definition main (w : world) : M unit :=
  documents <- loadDocuments (listing w) ;;
  emit (LogDocuments documents) ;;
  query <- question w "Ask a question: " ;;
  relevantDocs <- retrieveRelevantDocsWithEmbeddings (embeddings w) query documents ;;
  if Nat.eqb (List.length relevantDocs) 0 then
    emit (ConsoleLog "No relevant documents found.") ;;
    emit RlClose ;;
    ret tt
  else
    let context :=
      join (newline ++ newline) (map (fun d => content (doc_of d)) relevantDocs) in
    answer <- generateAnswerWithOpenAI (chat w) query context ;;
    emit (LogContextFrom (join ", " (map (fun d => filename (doc_of d)) relevantDocs))) ;;
    emit (LogAnswer answer) ;;
    emit RlClose ;;
    ret tt.

(* ================================================================== *)
(** ** The specification's wording, for comparison with the code *)

(** [sum_below L f] is the sum of [f i] over the indices [i < L], taken in
    increasing order from 0. *)
Fixpoint sum_below (L : nat) (f : nat -> float) : float :=
  match L with
  | O => 0%float
  | S n => (sum_below n f + f n)%float
  end.

Definition common_prefix (a b : list float) : nat :=
  Nat.min (List.length a) (List.length b).

Definition spec_dot (a b : list float) : float :=
  sum_below (common_prefix a b) (fun i => (index a i * index b i)%float).

Definition spec_normA (a b : list float) : float :=
  PrimFloat.sqrt (sum_below (common_prefix a b) (fun i => (index a i * index a i)%float)).

Definition spec_normB (a b : list float) : float :=
  PrimFloat.sqrt (sum_below (common_prefix a b) (fun i => (index b i * index b i)%float)).

(** Section 4.1 of the specification, on two sequences. *)
Definition spec_cosine (a b : list float) : float :=
  if Nat.eqb (common_prefix a b) 0 then 0%float
  else if PrimFloat.eqb (spec_normA a b) 0 || PrimFloat.eqb (spec_normB a b) 0
       then 0%float
       else (spec_dot a b / (spec_normA a b * spec_normB a b))%float.

(** The same contract on arbitrary values: [0] unless both are sequences. *)
Definition similarity (a b : value) : float :=
  match a, b with
  | VArr xs, VArr ys => spec_cosine xs ys
  | _, _ => 0%float
  end.

(* ================================================================== *)
(** ** Vocabulary for the statements: results and console output of each
    step, as functions of the outcomes of the external calls *)

(** An embedding call fails on a transport failure, a non-success status, a
    body that does not parse, or a parsed body without a first data item. *)
Definition call_failed (o : fetch_outcome) : bool :=
  match o with
  | Response true _ (JsonResult (FirstItem _)) => false
  | _ => true
  end.

(** The embedding a call ends with. *)
Definition embedding_of (o : fetch_outcome) : value :=
  match o with
  | Response true _ (JsonResult (FirstItem v)) => v
  | _ => fallback_vector
  end.

(** Every document with its score against the query embedding. *)
Fixpoint scored_from (svc : nat -> fetch_outcome) (i : nat) (q : value)
    (documents : list Document) : list ScoredDocument :=
  match documents with
  | [] => []
  | doc :: rest =>
    mkScored doc (similarity q (embedding_of (svc i)))
    :: scored_from svc (S i) q rest
  end.

Definition scored (svc : embedding_service) (documents : list Document)
  : list ScoredDocument :=
  scored_from (for_document svc) 0 (embedding_of (for_query svc)) documents.

Definition passes (d : ScoredDocument) : bool := PrimFloat.ltb 0.5 (score d).

(** Descending order: each score is at least the score after it. *)
Definition score_ge (a b : ScoredDocument) : Prop :=
  PrimFloat.leb (score b) (score a) = true.

(** The content the loader gives a file. *)
Definition loaded_content (st : file_state) : string :=
  match st with
  | JsonValue (Some s) => s
  | _ => EmptyString
  end.

Definition is_json (e : dir_entry) : bool := endsWith (name e) ".json".

Definition is_chat_request (ev : event) : bool :=
  match ev with
  | ChatRequest _ _ => true
  | _ => false
  end.

Definition is_embedding_request (ev : event) : bool :=
  match ev with
  | EmbeddingRequest _ => true
  | _ => false
  end.

(** The message of the retriever's per-document [catch]. *)
Definition is_document_error (ev : event) : bool :=
  match ev with
  | ConsoleError msg => String.prefix "Error processing document " msg
  | _ => false
  end.

Definition early_exit_message : event :=
  ConsoleError "Failed to generate valid embedding for query".

(** [-v], elementwise. *)
Definition negate (v : list float) : list float := map PrimFloat.opp v.

(** A zero vector: every entry compares equal to 0. *)
Definition zero_vector (v : list float) : Prop :=
  Forall (fun x => PrimFloat.eqb x 0 = true) v.

(** Nonnegative sign (not a negative number, not [-0]). *)
Definition SFnonneg (x : spec_float) : Prop :=
  match x with
  | S754_zero s | S754_infinity s | S754_finite s _ _ => s = false
  | S754_nan => True
  end.

(** Negation that keeps a zero positive: what summing negated terms from
    [+0] gives. *)
Definition SFnegz (x : spec_float) : spec_float :=
  match x with
  | S754_zero _ => S754_zero false
  | _ => SFopp x
  end.

(** What each step prints and requests. *)
Definition embedding_log (o : fetch_outcome) (text : string) : list event :=
  [ ConsoleLog text; EmbeddingRequest text;
    if call_failed o then ConsoleError "Error generating embeddings:"
    else ConsoleLog "Embedding generated successfully" ].

Definition cosine_log (a b : value) : list event :=
  if isArray a && isArray b then []
  else [ConsoleError "Invalid vectors provided to cosineSimilarity"].

Fixpoint scoring_log (svc : nat -> fetch_outcome) (i : nat) (q : value)
    (documents : list Document) : list event :=
  match documents with
  | [] => []
  | doc :: rest =>
    embedding_log (svc i) (content doc)
    ++ cosine_log q (embedding_of (svc i))
    ++ scoring_log svc (S i) q rest
  end.

(** The retriever's result: the documents that pass, best first. *)
Definition retrieved (svc : embedding_service) (documents : list Document)
  : list ScoredDocument :=
  if isArray (embedding_of (for_query svc))
  then sort by_score_desc (filter passes (scored svc documents))
  else [].

Definition retrieval_log (svc : embedding_service) (query : string)
    (documents : list Document) : list event :=
  ConsoleLog "Generating query embedding..."
  :: embedding_log (for_query svc) query
  ++ (if isArray (embedding_of (for_query svc))
      then ConsoleLog "Comparing with document embeddings..."
           :: scoring_log (for_document svc) 0 (embedding_of (for_query svc)) documents
      else [early_exit_message]).

Definition loaded (listing : list dir_entry) : list Document :=
  map (fun e => mkDocument (name e) (loaded_content (state e)))
      (filter is_json listing).

Definition not_nan (d : ScoredDocument) : Prop :=
  PrimFloat.is_nan (score d) = false.

Definition load_log (listing : list dir_entry) : list event :=
  flat_map
    (fun e =>
       match state e with
       | JsonValue _ => []
       | _ => [ConsoleError ("Error loading " ++ name e ++ ":")]
       end)
    (filter is_json listing).

(** The answer the generator hands back, and what it prints and requests. *)
Definition answer_of (o : chat_outcome) : string :=
  match o with
  | ChatAnswer text => text
  | _ => "Sorry, I encountered an error while generating an answer."
  end.

Definition answer_log (o : chat_outcome) (query context : string) : list event :=
  ConsoleLog "Generating answer using OpenAI..."
  :: ChatRequest system_prompt (user_prompt query context)
  :: match o with
     | ChatAnswer _ => []
     | _ => [ConsoleError "Error generating answer with OpenAI:"]
     end.

(** The context handed to the answer generator. *)
Definition context_of (relevantDocs : list ScoredDocument) : string :=
  join (newline ++ newline) (map (fun d => content (doc_of d)) relevantDocs).


Definition is_early_exit (ev : event) : bool :=
  match ev with
  | ConsoleError msg => String.eqb msg "Failed to generate valid embedding for query"
  | _ => false
  end.

(** Reading or parsing the file fails, or its [data] field is absent. *)
Definition no_data (st : file_state) : Prop :=
  st = Unreadable \/ st = NotJson \/ st = JsonNull \/ st = JsonValue None.

(** Everything [main] prints and requests. *)
Definition main_log (w : world) : list event :=
  let documents := loaded (listing w) in
  let relevantDocs := retrieved (embeddings w) documents in
  load_log (listing w)
  ++ [LogDocuments documents; Question "Ask a question: "]
  ++ retrieval_log (embeddings w) (typed w) documents
  ++ match relevantDocs with
     | [] => [ConsoleLog "No relevant documents found."; RlClose]
     | _ :: _ =>
       answer_log (chat w) (typed w) (context_of relevantDocs)
       ++ [ LogContextFrom (join ", " (map (fun d => filename (doc_of d)) relevantDocs));
            LogAnswer (answer_of (chat w)); RlClose ]
     end.

(* ================================================================== *)
(** ** Further vocabulary: event classes and score classes *)

Definition is_close (ev : event) : bool :=
  match ev with
  | RlClose => true
  | _ => false
  end.

Definition is_question (ev : event) : bool :=
  match ev with
  | Question _ => true
  | _ => false
  end.

Definition is_console_error (ev : event) : bool :=
  match ev with
  | ConsoleError _ => true
  | _ => false
  end.

(** Events of the console and of the embedding service only. *)
Definition console_or_embedding (ev : event) : Prop :=
  match ev with
  | ConsoleLog _ | ConsoleError _ | EmbeddingRequest _ => True
  | _ => False
  end.

(** The documents whose score compares equal to [s]. *)
Definition same_score (s : float) (d : ScoredDocument) : bool :=
  PrimFloat.eqb (score d) s.

(** A read or parse failure of a file (its [data] field is never reached). *)
Definition load_fails (st : file_state) : bool :=
  match st with
  | JsonValue _ => false
  | _ => true
  end.

(** No sign of [-0]. *)
Definition SFnot_neg_zero (x : spec_float) : Prop := x <> S754_zero true.

(* ================================================================== *)
(** * Facts about binary64 arithmetic *)

Section Binary64.

Local Open Scope Z_scope.

Lemma digits2_pos_bounds (m : positive) :
  2 ^ (Zpos (digits2_pos m) - 1) <= Zpos m < 2 ^ (Zpos (digits2_pos m)).
Proof.
  induction m as [m IH | m IH | ]; cbn [digits2_pos].
  - rewrite Pos2Z.inj_succ.
    replace (Z.succ (Zpos (digits2_pos m)) - 1) with (Z.succ (Zpos (digits2_pos m) - 1)) by lia.
    rewrite !Z.pow_succ_r by lia. lia.
  - rewrite Pos2Z.inj_succ.
    replace (Z.succ (Zpos (digits2_pos m)) - 1) with (Z.succ (Zpos (digits2_pos m) - 1)) by lia.
    rewrite !Z.pow_succ_r by lia. lia.
  - cbn. lia.
Qed.

Lemma shr_1_m (mrs : shr_record) :
  0 <= shr_m mrs -> shr_m (shr_1 mrs) = shr_m mrs / 2.
Proof.
  destruct mrs as [m r s]; cbn [shr_m shr_1].
  destruct m as [ | [p | p | ] | p ]; intros H; cbn [shr_m]; try lia.
  - reflexivity.
  - rewrite Pos2Z.inj_xI. apply Z.div_unique with (r := 1); lia.
  - rewrite Pos2Z.inj_xO. apply Z.div_unique with (r := 0); lia.
  - reflexivity.
Qed.

Lemma iter_shr_1_m (p : positive) :
  forall mrs, 0 <= shr_m mrs ->
    shr_m (iter_pos shr_1 p mrs) = shr_m mrs / 2 ^ Zpos p.
Proof.
  induction p as [p IH | p IH | ]; intros mrs H; cbn [iter_pos].
  - assert (H1 : 0 <= shr_m (shr_1 mrs)) by (rewrite shr_1_m by assumption; apply Z.div_pos; lia).
    assert (H2 : 0 <= shr_m (iter_pos shr_1 p (shr_1 mrs)))
      by (rewrite IH by assumption; apply Z.div_pos; [assumption | apply Z.pow_pos_nonneg; lia]).
    rewrite IH, IH, shr_1_m by assumption.
    rewrite !Z.div_div by (try apply Z.pow_pos_nonneg; lia).
    f_equal. change 2 with (2 ^ 1) at 1. rewrite <- !Z.pow_add_r by lia. f_equal. lia.
  - assert (H2 : 0 <= shr_m (iter_pos shr_1 p mrs))
      by (rewrite IH by assumption; apply Z.div_pos; [assumption | apply Z.pow_pos_nonneg; lia]).
    rewrite IH, IH by assumption.
    rewrite !Z.div_div by (try apply Z.pow_pos_nonneg; lia).
    f_equal. rewrite <- Z.pow_add_r by lia. f_equal. lia.
  - rewrite shr_1_m by assumption. reflexivity.
Qed.

Lemma shr_record_of_loc_m m l : shr_m (shr_record_of_loc m l) = m.
Proof. destruct l as [ | [ | | ] ]; reflexivity. Qed.

Lemma shr_fexp_pos (m : positive) (e : Z) (l : location) :
  emin <= e ->
  0 < shr_m (fst (shr_fexp prec emax (Zpos m) e l))
  /\ emin <= snd (shr_fexp prec emax (Zpos m) e l).
Proof.
  intros He. unfold shr_fexp, shr.
  pose proof (digits2_pos_bounds m) as [Hlo _].
  destruct (fexp prec emax (Zdigits2 (Zpos m) + e) - e) as [ | p | p ] eqn:Hn;
    cbn [fst snd]; rewrite ?shr_record_of_loc_m; try (split; lia).
  rewrite iter_shr_1_m by (rewrite shr_record_of_loc_m; lia).
  rewrite shr_record_of_loc_m. split; [ | lia ].
  apply Z.div_str_pos. split; [ apply Z.pow_pos_nonneg; lia | ].
  apply Z.le_trans with (2 := Hlo).
  apply Z.pow_le_mono_r; [ lia | ].
  revert Hn He. unfold fexp, SpecFloat.emin, prec, emax. cbn [Zdigits2]. lia.
Qed.

Lemma round_nearest_even_pos m l : 0 < m -> 0 < round_nearest_even m l.
Proof.
  intros H. destruct l as [ | [ | | ] ]; cbn [round_nearest_even]; try lia.
  destruct (Z.even m); lia.
Qed.

(** Rounding a positive mantissa whose exponent is at least [emin] keeps the
    sign and never gives a zero: the result is finite or infinite. *)
Lemma binary_round_aux_pos (s : bool) (m : positive) (e : Z) (l : location) :
  emin <= e ->
  (exists m' e', binary_round_aux prec emax s (Zpos m) e l = S754_finite s m' e')
  \/ binary_round_aux prec emax s (Zpos m) e l = S754_infinity s.
Proof.
  intros He. unfold binary_round_aux.
  destruct (shr_fexp_pos m e l He) as [Hm He'].
  destruct (shr_fexp prec emax (Zpos m) e l) as [mrs' e']. cbn [fst snd] in Hm, He'.
  pose proof (round_nearest_even_pos _ (loc_of_shr_record mrs') Hm) as Hr.
  destruct (round_nearest_even (shr_m mrs') (loc_of_shr_record mrs')) as [ | m1 | m1 ];
    try lia.
  destruct (shr_fexp_pos m1 e' loc_Exact He') as [Hm2 _].
  destruct (shr_fexp prec emax (Zpos m1) e' loc_Exact) as [mrs'' e''].
  cbn [fst] in Hm2.
  destruct (shr_m mrs'') as [ | m2 | m2 ]; try lia.
  destruct (Z.leb e'' (emax - prec)); [ left; eauto | right; reflexivity ].
Qed.

Lemma binary_round_pos (s : bool) (m : positive) (e : Z) :
  emin <= e ->
  (exists m' e', binary_round prec emax s m e = S754_finite s m' e')
  \/ binary_round prec emax s m e = S754_infinity s.
Proof.
  intros He. unfold binary_round, shl_align.
  destruct (fexp prec emax (Zpos (digits2_pos m) + e) - e) as [ | d | d ] eqn:Hd;
    try (apply binary_round_aux_pos; assumption).
  apply binary_round_aux_pos.
  revert Hd. unfold fexp, SpecFloat.emin, prec, emax. lia.
Qed.

(** In any case rounding never turns the sign around. *)
Lemma binary_round_aux_sign (s : bool) (m e : Z) (l : location) :
  match binary_round_aux prec emax s m e l with
  | S754_zero s' | S754_infinity s' | S754_finite s' _ _ => s' = s
  | S754_nan => True
  end.
Proof.
  unfold binary_round_aux.
  destruct (shr_fexp prec emax m e l) as [mrs' e'].
  destruct (shr_fexp prec emax _ e' loc_Exact) as [mrs'' e''].
  destruct (shr_m mrs''); trivial.
  destruct (Z.leb e'' (emax - prec)); trivial.
Qed.

Lemma binary_round_sign (s : bool) (m : positive) (e : Z) :
  match binary_round prec emax s m e with
  | S754_zero s' | S754_infinity s' | S754_finite s' _ _ => s' = s
  | S754_nan => True
  end.
Proof.
  unfold binary_round.
  destruct (shl_align m e (fexp prec emax (Zpos (digits2_pos m) + e))) as [mz ez].
  apply binary_round_aux_sign.
Qed.

Lemma shl_align_fst (m : positive) (e e' : Z) :
  e' <= e -> Zpos (fst (shl_align m e e')) = Zpos m * 2 ^ (e - e').
Proof.
  intros H. unfold shl_align.
  destruct (e' - e) as [ | d | d ] eqn:Hd; cbn [fst]; try lia.
  - replace (e - e') with 0 by lia. lia.
  - replace (e - e') with (Zpos d) by lia.
    change (Pos.iter xO m d) with (shift_pos d m).
    rewrite shift_pos_correct. change (2 ^ Zpos d) with (Z.pow_pos 2 d). lia.
Qed.

(** The sign test on a rounded integer: positive exactly when the integer is. *)
Lemma SFltb_zero_normalize (D e : Z) :
  emin <= e ->
  SFltb (S754_zero false) (binary_normalize prec emax D e false) = (0 <? D).
Proof.
  intros He. destruct D as [ | m | m ]; cbn [binary_normalize].
  - reflexivity.
  - destruct (binary_round_pos false m e He) as [(m' & e' & ->) | ->]; reflexivity.
  - pose proof (binary_round_sign true m e) as Hs.
    destruct (binary_round prec emax true m e) as [s' | s' | | s' m' e'];
      try subst s'; reflexivity.
Qed.

(** Canonical mantissas: the exponent is at least [emin], the mantissa has at
    most [prec] digits, and exactly [prec] above [emin]. *)
Lemma bounded_canonical (m : positive) (e : Z) :
  bounded prec emax m e = true ->
  emin <= e /\ Zpos m < 2 ^ 53
  /\ (emin < e -> 2 ^ 52 <= Zpos m).
Proof.
  unfold bounded, canonical_mantissa, fexp, SpecFloat.emin, prec, emax.
  intros H. apply andb_true_iff in H as [H _]. apply Z.eqb_eq in H.
  pose proof (digits2_pos_bounds m) as [Hlo Hhi].
  repeat split.
  - lia.
  - apply Z.lt_le_trans with (1 := Hhi). apply Z.pow_le_mono_r; lia.
  - intros Hlt. replace 52 with (Zpos (digits2_pos m) - 1) by lia. exact Hlo.
Qed.

Lemma compare_cont_Eq (p q : positive) :
  Pos.compare_cont Eq p q = (Zpos p ?= Zpos q).
Proof. reflexivity. Qed.

Lemma SFsub_sign_finite (sx : bool) (mx : positive) (ex : Z)
    (sy : bool) (my : positive) (ey : Z) :
  bounded prec emax mx ex = true ->
  bounded prec emax my ey = true ->
  SFltb (S754_zero false)
        (SFsub prec emax (S754_finite sy my ey) (S754_finite sx mx ex))
  = SFltb (S754_finite sx mx ex) (S754_finite sy my ey).
Proof.
  intros Hx Hy.
  apply bounded_canonical in Hx as (Hxe & Hxhi & Hxlo).
  apply bounded_canonical in Hy as (Hye & Hyhi & Hylo).
  cbn [SFsub]. rewrite SFltb_zero_normalize by lia.
  rewrite !shl_align_fst by lia.
  unfold SFltb, SFcompare. rewrite compare_cont_Eq.
  assert (Hpow : forall k, 0 < k -> 2 <= 2 ^ k).
  { intros k Hk. change 2 with (2 ^ 1) at 1. apply Z.pow_le_mono_r; lia. }
  assert (H53 : 2 ^ 53 = 2 * 2 ^ 52) by reflexivity.
  destruct (Z.compare_spec ex ey) as [Heq | Hlt | Hgt].
  - subst ey. rewrite Z.min_id, Z.sub_diag, !Z.mul_1_r.
    destruct (Z.compare_spec (Zpos mx) (Zpos my)); destruct sx, sy;
      cbn [cond_Zopp CompOpp]; lia.
  - rewrite Z.min_r by lia. rewrite Z.sub_diag, Z.mul_1_r.
    specialize (Hylo ltac:(lia)). specialize (Hpow (ey - ex) ltac:(lia)).
    destruct sx, sy; cbn [cond_Zopp]; nia.
  - rewrite Z.min_l by lia. rewrite Z.sub_diag, Z.mul_1_r.
    specialize (Hxlo ltac:(lia)). specialize (Hpow (ex - ey) ltac:(lia)).
    destruct sx, sy; cbn [cond_Zopp]; nia.
Qed.

Lemma SFsub_sign (x y : spec_float) :
  valid_binary x = true ->
  valid_binary y = true ->
  SFltb (S754_zero false) (SFsub prec emax y x) = SFltb x y.
Proof.
  intros Hx Hy.
  destruct x as [sx | sx | | sx mx ex], y as [sy | sy | | sy my ey];
    try (apply SFsub_sign_finite; assumption);
    repeat match goal with s : bool |- _ => destruct s end; reflexivity.
Qed.

(** [b - a > 0] exactly when [b > a]: the comparator of the retriever orders
    two scores as [<] does. *)
Lemma sub_pos_ltb (x y : float) : (0 <? y - x)%float = (x <? y)%float.
Proof.
  rewrite !ltb_spec, sub_spec.
  apply SFsub_sign; apply Prim2SF_valid.
Qed.

Lemma Prim2SF_inj (x y : float) : Prim2SF x = Prim2SF y -> x = y.
Proof.
  intros H. rewrite <- (SF2Prim_Prim2SF x), <- (SF2Prim_Prim2SF y), H. reflexivity.
Qed.

Lemma SFcompare_antisym (x y : spec_float) :
  SFcompare y x = option_map CompOpp (SFcompare x y).
Proof.
  destruct x as [sx | sx | | sx mx ex], y as [sy | sy | | sy my ey];
    repeat match goal with s : bool |- _ => destruct s end;
    cbn [SFcompare option_map CompOpp]; try reflexivity;
    rewrite (Z.compare_antisym ex ey), !compare_cont_Eq,
            (Z.compare_antisym (Zpos mx) (Zpos my));
    destruct (ex ?= ey); cbn [CompOpp];
    try reflexivity; destruct (Zpos mx ?= Zpos my); reflexivity.
Qed.

Lemma is_nan_spec (x : float) : is_nan x = false <-> Prim2SF x <> S754_nan.
Proof.
  unfold is_nan. rewrite eqb_spec. unfold SFeqb.
  destruct (Prim2SF x) as [s | s | | s m e]; cbn [SFcompare].
  - split; [discriminate | reflexivity].
  - destruct s; split; try discriminate; reflexivity.
  - split; [discriminate | congruence].
  - rewrite Z.compare_refl, compare_cont_Eq, Z.compare_refl.
    destruct s; split; try discriminate; reflexivity.
Qed.

Lemma ltb_not_nan (c x : float) : (c <? x)%float = true -> is_nan x = false.
Proof.
  rewrite ltb_spec. intros H. apply is_nan_spec. intros Hn. rewrite Hn in H.
  unfold SFltb in H. destruct (Prim2SF c); discriminate.
Qed.

(** On numbers the order is total: when [x < y] fails, [y <= x] holds. *)
Lemma not_ltb_leb (x y : float) :
  is_nan x = false -> is_nan y = false ->
  (x <? y)%float = false -> (y <=? x)%float = true.
Proof.
  rewrite !is_nan_spec, ltb_spec, leb_spec. unfold SFltb, SFleb.
  rewrite (SFcompare_antisym (Prim2SF x) (Prim2SF y)).
  intros Hx Hy.
  destruct (SFcompare (Prim2SF x) (Prim2SF y)) as [[ | | ] | ] eqn:Hc;
    cbn [option_map CompOpp]; try congruence.
  destruct (Prim2SF x) as [sx | sx | | sx mx ex], (Prim2SF y) as [sy | sy | | sy my ey];
    try congruence; cbn in Hc;
    repeat match goal with s : bool |- _ => destruct s end; discriminate.
Qed.

Lemma ltb_leb (x y : float) : (x <? y)%float = true -> (x <=? y)%float = true.
Proof.
  rewrite ltb_spec, leb_spec. unfold SFltb, SFleb.
  destruct (SFcompare (Prim2SF x) (Prim2SF y)) as [[ | | ] | ]; congruence.
Qed.

(** *** Negation commutes with rounding, products and quotients *)

Lemma binary_round_aux_opp (s : bool) (m e : Z) (l : location) :
  binary_round_aux prec emax (negb s) m e l
  = SFopp (binary_round_aux prec emax s m e l).
Proof.
  unfold binary_round_aux.
  destruct (shr_fexp prec emax m e l) as [mrs' e'].
  destruct (shr_fexp prec emax _ e' loc_Exact) as [mrs'' e''].
  destruct (shr_m mrs''); try reflexivity.
  destruct (Z.leb e'' (emax - prec)); reflexivity.
Qed.

Lemma binary_round_opp (s : bool) (m : positive) (e : Z) :
  binary_round prec emax (negb s) m e = SFopp (binary_round prec emax s m e).
Proof.
  unfold binary_round.
  destruct (shl_align m e (fexp prec emax (Zpos (digits2_pos m) + e))) as [mz ez].
  apply binary_round_aux_opp.
Qed.

Lemma xorb_negb_r (a b : bool) : xorb a (negb b) = negb (xorb a b).
Proof. destruct a, b; reflexivity. Qed.

Lemma xorb_negb_l (a b : bool) : xorb (negb a) b = negb (xorb a b).
Proof. destruct a, b; reflexivity. Qed.

Lemma SFmul_opp_r (x y : spec_float) :
  SFmul prec emax x (SFopp y) = SFopp (SFmul prec emax x y).
Proof.
  destruct x as [sx | sx | | sx mx ex], y as [sy | sy | | sy my ey];
    cbn [SFmul SFopp]; rewrite ?xorb_negb_r; try reflexivity.
  apply binary_round_aux_opp.
Qed.

Lemma SFmul_opp_l (x y : spec_float) :
  SFmul prec emax (SFopp x) y = SFopp (SFmul prec emax x y).
Proof.
  destruct x as [sx | sx | | sx mx ex], y as [sy | sy | | sy my ey];
    cbn [SFmul SFopp]; rewrite ?xorb_negb_l; try reflexivity.
  apply binary_round_aux_opp.
Qed.

Lemma SFopp_involutive (x : spec_float) : SFopp (SFopp x) = x.
Proof. destruct x as [s | s | | s m e]; cbn; rewrite ?negb_involutive; reflexivity. Qed.

Lemma SFdiv_opp_l (x y : spec_float) :
  SFdiv prec emax (SFopp x) y = SFopp (SFdiv prec emax x y).
Proof.
  destruct x as [sx | sx | | sx mx ex], y as [sy | sy | | sy my ey];
    cbn [SFdiv SFopp]; rewrite ?xorb_negb_l; try reflexivity.
  destruct (SFdiv_core_binary prec emax (Zpos mx) ex (Zpos my) ey) as [[mz ez] lz].
  apply binary_round_aux_opp.
Qed.

Lemma mul_opp_r (x y : float) : (x * - y = - (x * y))%float.
Proof.
  apply Prim2SF_inj. rewrite mul_spec, !opp_spec, mul_spec. apply SFmul_opp_r.
Qed.

Lemma mul_opp_opp (x y : float) : (- x * - y = x * y)%float.
Proof.
  apply Prim2SF_inj. rewrite !mul_spec, !opp_spec.
  unfold SF64mul. rewrite SFmul_opp_l, SFmul_opp_r. apply SFopp_involutive.
Qed.

Lemma div_opp_l (x y : float) : (- x / y = - (x / y))%float.
Proof.
  apply Prim2SF_inj. rewrite div_spec, !opp_spec, div_spec. apply SFdiv_opp_l.
Qed.

(** *** A finite nonzero number divided by itself is exactly 1 *)

Lemma SFdiv_same (s : bool) (m : positive) (e : Z) :
  SFdiv prec emax (S754_finite s m e) (S754_finite s m e) = Prim2SF 1.
Proof.
  cbn [SFdiv]. unfold SFdiv_core_binary.
  replace (Zdigits2 (Zpos m) + e - (Zdigits2 (Zpos m) + e)) with 0 by lia.
  rewrite Z.sub_diag.
  change (Z.min (fexp prec emax 0) 0) with (-53).
  change (0 - -53) with 53.
  cbv iota beta.
  rewrite Z.shiftl_mul_pow2 by lia.
  assert (Hq : Z.div_eucl (Zpos m * 2 ^ 53) (Zpos m) = (2 ^ 53, 0)).
  { pose proof (Z.div_mul (2 ^ 53) (Zpos m) ltac:(lia)) as Hd.
    pose proof (Z.mod_mul (2 ^ 53) (Zpos m) ltac:(lia)) as Hr.
    unfold Z.div, Z.modulo in Hd, Hr. rewrite (Z.mul_comm (Zpos m)).
    destruct (Z.div_eucl (2 ^ 53 * Zpos m) (Zpos m)) as [q r].
    congruence. }
  rewrite Hq.
  assert (Hl : new_location (Zpos m) 0 = loc_Exact).
  { unfold new_location. destruct (Z.even (Zpos m)); reflexivity. }
  rewrite Hl. rewrite xorb_nilpotent. reflexivity.
Qed.

Lemma div_same (x : float) :
  (0 <? x)%float = true -> (x <? infinity)%float = true -> (x / x = 1)%float.
Proof.
  rewrite !ltb_spec. intros Hpos Hfin.
  apply Prim2SF_inj. rewrite div_spec.
  destruct (Prim2SF x) as [s | s | | s m e] eqn:Hx.
  - destruct s; discriminate.
  - destruct s; discriminate.
  - discriminate.
  - apply SFdiv_same.
Qed.

(** *** Sums of squares and of their negations *)

Lemma SFmul_self_nonneg (x : spec_float) : SFnonneg (SFmul prec emax x x).
Proof.
  destruct x as [s | s | | s m e]; cbn [SFmul SFnonneg].
  - apply xorb_nilpotent.
  - apply xorb_nilpotent.
  - trivial.
  - rewrite xorb_nilpotent.
    pose proof (binary_round_aux_sign false (Zpos (m * m)) (e + e) loc_Exact) as H.
    destruct (binary_round_aux prec emax false (Zpos (m * m)) (e + e) loc_Exact);
      cbn [SFnonneg]; trivial.
Qed.

Lemma SFadd_negz (S p : spec_float) :
  valid_binary S = true -> valid_binary p = true ->
  SFnonneg S -> SFnonneg p ->
  SFadd prec emax (SFnegz S) (SFopp p) = SFnegz (SFadd prec emax S p)
  /\ SFnonneg (SFadd prec emax S p).
Proof.
  intros HvS Hvp HS Hp.
  destruct S as [sS | sS | | sS mS eS], p as [sp | sp | | sp mp ep];
    cbn [SFnonneg] in HS, Hp; subst;
    try (split; [reflexivity | cbn; trivial]).
  cbn [SFnegz SFopp SFadd negb cond_Zopp Z.opp Z.add].
  apply bounded_canonical in HvS as (HeS & _), Hvp as (Hep & _).
  set (ez := Z.min eS ep).
  set (k := (fst (shl_align mS eS ez) + fst (shl_align mp ep ez))%positive).
  cbn [binary_normalize].
  change true with (negb false). rewrite binary_round_opp.
  destruct (binary_round_pos false k ez ltac:(unfold ez; lia)) as [(m' & e' & ->) | ->];
    split; cbn; reflexivity.
Qed.

(** A number that compares equal to 0 is [+0] or [-0]. *)
Lemma eqb_zero_cases (x : float) :
  (x =? 0)%float = true -> x = 0%float \/ x = (-0)%float.
Proof.
  rewrite eqb_spec. intros H.
  rewrite <- (SF2Prim_Prim2SF x).
  destruct (Prim2SF x) as [s | s | | s m e]; try (destruct s; discriminate).
  - destruct s; [right | left]; reflexivity.
  - discriminate.
Qed.

Lemma sqrt_not_zero (x : float) :
  (sqrt x =? 0)%float = false -> forall s, Prim2SF x <> S754_zero s.
Proof.
  intros H s Hx. rewrite eqb_spec, sqrt_spec, Hx in H.
  destruct s; discriminate.
Qed.

End Binary64.

(* ================================================================== *)
(** * The code against the specification's wording *)

Section VectorMath.

Lemma fold_left_of_map {A B C} (f : A -> B -> A) (h : C -> B) (l : list C) (a : A) :
  fold_left f (map h l) a = fold_left (fun s x => f s (h x)) l a.
Proof.
  revert a. induction l as [ | x l IH]; intros a; cbn; [reflexivity | apply IH].
Qed.

Lemma fold_seq_sum_below (g : nat -> float) (L : nat) :
  fold_left (fun s i => (s + g i)%float) (seq 0 L) 0%float = sum_below L g.
Proof.
  induction L as [ | L IH]; [reflexivity | ].
  rewrite seq_S, fold_left_app, IH. reflexivity.
Qed.

Lemma sum_below_ext (f g : nat -> float) (L : nat) :
  (forall i, i < L -> f i = g i) -> sum_below L f = sum_below L g.
Proof.
  induction L as [ | L IH]; intros H; cbn; [reflexivity | ].
  rewrite IH, H by auto with arith. reflexivity.
Qed.

Lemma firstn_index (a : list float) :
  forall L, L <= List.length a -> firstn L a = map (index a) (seq 0 L).
Proof.
  induction a as [ | x a IH]; intros [ | L] H; cbn in *; try reflexivity; try lia.
  rewrite <- seq_shift, map_map, IH by lia. reflexivity.
Qed.

Lemma dotProduct_sum (a b : list float) (L : nat) :
  dotProduct a b L = sum_below L (fun i => (index a i * index b i)%float).
Proof.
  unfold dotProduct, reduce_sum, products.
  rewrite fold_left_of_map. apply fold_seq_sum_below.
Qed.

Lemma norm_sum (a : list float) (L : nat) :
  L <= List.length a ->
  norm a L = PrimFloat.sqrt (sum_below L (fun i => (index a i * index a i)%float)).
Proof.
  intros H. unfold norm, reduce_squares, slice0.
  rewrite firstn_index by assumption.
  rewrite fold_left_of_map.
  rewrite (fold_seq_sum_below (fun i => (index a i * index a i)%float)).
  reflexivity.
Qed.

(** On two arrays the code returns the specification's value, without
    logging anything. *)
Lemma cosineSimilarity_arrays (a b : list float) :
  cosineSimilarity (VArr a) (VArr b) = ret (spec_cosine a b).
Proof.
  unfold cosineSimilarity, spec_cosine, spec_dot, spec_normA, spec_normB, common_prefix.
  cbn [truthy isArray elems negb orb].
  rewrite dotProduct_sum, !norm_sum by lia.
  destruct (Nat.eqb _ 0); [reflexivity | ].
  destruct (_ || _)%bool; reflexivity.
Qed.

Lemma cosineSimilarity_spec (a b : value) :
  cosineSimilarity a b = (cosine_log a b, Normal (similarity a b)).
Proof.
  destruct a as [ | | ba | xa | sa | a | ], b as [ | | bb | xb | sb | b | ];
    try apply cosineSimilarity_arrays;
    unfold cosineSimilarity; cbn [truthy isArray negb orb andb];
    rewrite ?orb_true_r; try reflexivity;
    match goal with |- (if ?c then _ else _) = _ => destruct c end; reflexivity.
Qed.

Lemma spec_cosine_prefix (a b : list float) :
  spec_cosine a b
  = spec_cosine (firstn (common_prefix a b) a) (firstn (common_prefix a b) b).
Proof.
  assert (HL : common_prefix (firstn (common_prefix a b) a) (firstn (common_prefix a b) b)
               = common_prefix a b).
  { unfold common_prefix. rewrite !length_firstn. lia. }
  assert (Hi : forall (v : list float) i, i < common_prefix a b ->
               index (firstn (common_prefix a b) v) i = index v i).
  { intros v i Hlt. unfold index. rewrite nth_firstn.
    destruct (Nat.ltb_spec i (common_prefix a b)); [reflexivity | lia]. }
  unfold spec_cosine, spec_dot, spec_normA, spec_normB. rewrite !HL.
  rewrite (sum_below_ext (fun i => (index a i * index b i)%float)
             (fun i => (index (firstn (common_prefix a b) a) i
                        * index (firstn (common_prefix a b) b) i)%float))
    by (intros i Hlt; rewrite !Hi by assumption; reflexivity).
  rewrite (sum_below_ext (fun i => (index a i * index a i)%float)
             (fun i => (index (firstn (common_prefix a b) a) i
                        * index (firstn (common_prefix a b) a) i)%float))
    by (intros i Hlt; rewrite !Hi by assumption; reflexivity).
  rewrite (sum_below_ext (fun i => (index b i * index b i)%float)
             (fun i => (index (firstn (common_prefix a b) b) i
                        * index (firstn (common_prefix a b) b) i)%float))
    by (intros i Hlt; rewrite !Hi by assumption; reflexivity).
  reflexivity.
Qed.

End VectorMath.

(** C1. For every two numeric arrays [a] and [b], [cosineSimilarity] works on
    the common prefix of length [L = min(len a, len b)]: the dot product and
    both norms are sums over the indices [i < L], the result is
    [dot / (normA * normB)] (0 when [L] is 0 or a norm is 0), it is the same
    as on the two prefixes, [cosineSimilarity([1,0,0],[1,0])] is 1.0, and
    arrays of different lengths are accepted: the call returns without an
    error message. *)
Theorem C1_cosine_over_common_prefix (a b : list float) :
  let L := Nat.min (List.length a) (List.length b) in
  let dot := sum_below L (fun i => (index a i * index b i)%float) in
  let normA := PrimFloat.sqrt (sum_below L (fun i => (index a i * index a i)%float)) in
  let normB := PrimFloat.sqrt (sum_below L (fun i => (index b i * index b i)%float)) in
  cosineSimilarity (VArr a) (VArr b)
  = ret (if Nat.eqb L 0 then 0
         else if PrimFloat.eqb normA 0 || PrimFloat.eqb normB 0 then 0
              else dot / (normA * normB))%float
  /\ cosineSimilarity (VArr a) (VArr b)
     = cosineSimilarity (VArr (firstn L a)) (VArr (firstn L b))
  /\ cosineSimilarity (VArr [1; 0; 0]%float) (VArr [1; 0]%float) = ret 1%float.
Proof.
  cbv zeta. split; [ | split ].
  - apply cosineSimilarity_arrays.
  - rewrite !cosineSimilarity_arrays. f_equal. apply spec_cosine_prefix.
  - reflexivity.
Qed.

(* ================================================================== *)
(** * The embedding client and the retriever, step by step *)

Section Retrieval.

Lemma generateEmbeddings_spec (o : fetch_outcome) (text : string) :
  generateEmbeddings o text
  = ([ EmbeddingRequest text;
       if call_failed o then ConsoleError "Error generating embeddings:"
       else ConsoleLog "Embedding generated successfully" ],
     Normal (embedding_of o)).
Proof.
  destruct o as [ | [ | ] status [ | [ | v ] ] ]; reflexivity.
Qed.

Lemma getEmbedding_spec (o : fetch_outcome) (text : string) :
  getEmbedding o text = (embedding_log o text, Normal (embedding_of o)).
Proof.
  unfold getEmbedding. rewrite generateEmbeddings_spec. reflexivity.
Qed.

Lemma not_array_test (v : value) :
  negb (truthy v) || negb (isArray v) = negb (isArray v).
Proof. destruct v; cbn; rewrite ?orb_true_r; reflexivity. Qed.

Lemma scoreDocument_spec (o : fetch_outcome) (q : value) (doc : Document) :
  scoreDocument o q doc
  = (embedding_log o (content doc) ++ cosine_log q (embedding_of o),
     Normal (mkScored doc (similarity q (embedding_of o)))).
Proof.
  unfold scoreDocument. rewrite getEmbedding_spec. cbn [bind].
  rewrite cosineSimilarity_spec. cbn [bind ret try_catch].
  rewrite ?app_nil_r. reflexivity.
Qed.

Lemma scoreDocuments_spec (svc : nat -> fetch_outcome) (q : value)
    (documents : list Document) :
  forall i,
    scoreDocuments svc i q documents
    = (scoring_log svc i q documents, Normal (scored_from svc i q documents)).
Proof.
  induction documents as [ | doc rest IH]; intros i; [reflexivity | ].
  cbn [scoreDocuments scoring_log scored_from].
  rewrite scoreDocument_spec. cbn [bind]. rewrite IH. cbn [bind ret].
  rewrite ?app_nil_r, <- app_assoc. reflexivity.
Qed.

(** The retriever never raises; its result and its console output are the
    ones described by [retrieved] and [retrieval_log]. *)
Lemma retrieve_spec (svc : embedding_service) (query : string)
    (documents : list Document) :
  retrieveRelevantDocsWithEmbeddings svc query documents
  = (retrieval_log svc query documents, Normal (retrieved svc documents)).
Proof.
  unfold retrieveRelevantDocsWithEmbeddings, retrieval_log, retrieved, scored.
  rewrite getEmbedding_spec. cbn [bind emit].
  rewrite not_array_test.
  destruct (isArray (embedding_of (for_query svc))); cbn [negb].
  - rewrite scoreDocuments_spec. cbn [bind ret try_catch app].
    rewrite ?app_nil_r. reflexivity.
  - cbn [bind ret try_catch app emit]. rewrite ?app_nil_r. reflexivity.
Qed.

Lemma similarity_not_array_l (q e : value) :
  isArray q = false -> similarity q e = 0%float.
Proof. destruct q; cbn; congruence. Qed.

Lemma similarity_not_array_r (q e : value) :
  isArray e = false -> similarity q e = 0%float.
Proof. destruct q, e; cbn; congruence. Qed.

Lemma scored_from_no_query (svc : nat -> fetch_outcome) (q : value)
    (documents : list Document) :
  isArray q = false ->
  forall i, filter passes (scored_from svc i q documents) = [].
Proof.
  intros Hq. induction documents as [ | doc rest IH]; intros i; [reflexivity | ].
  cbn [scored_from filter]. unfold passes at 1. cbn [score].
  rewrite similarity_not_array_l by assumption.
  change (PrimFloat.ltb 0.5 0) with false. apply IH.
Qed.

End Retrieval.

(* ================================================================== *)
(** * Sorting by score *)

Section Sorting.

Lemma sort_insert_perm {A} (f : A -> A -> float) (x : A) (l : list A) :
  Permutation (sort_insert f x l) (x :: l).
Proof.
  induction l as [ | y l IH]; cbn [sort_insert]; [reflexivity | ].
  destruct (PrimFloat.ltb 0 (f x y)); [ | reflexivity ].
  rewrite IH. apply perm_swap.
Qed.

Lemma sort_perm {A} (f : A -> A -> float) (l : list A) :
  Permutation (sort f l) l.
Proof.
  induction l as [ | x l IH]; cbn [sort fold_right]; [reflexivity | ].
  fold (sort f l). rewrite sort_insert_perm, IH. reflexivity.
Qed.

Lemma HdRel_sort_insert (y x : ScoredDocument) (l : list ScoredDocument) :
  score_ge y x -> HdRel score_ge y l ->
  HdRel score_ge y (sort_insert by_score_desc x l).
Proof.
  intros Hyx Hl. destruct l as [ | z l]; cbn [sort_insert].
  - constructor. exact Hyx.
  - destruct (PrimFloat.ltb 0 (by_score_desc x z)); constructor.
    + inversion Hl; assumption.
    + exact Hyx.
Qed.

Lemma sort_insert_sorted (x : ScoredDocument) (l : list ScoredDocument) :
  not_nan x -> Forall not_nan l ->
  Sorted score_ge l -> Sorted score_ge (sort_insert by_score_desc x l).
Proof.
  intros Hx. induction l as [ | y l IH]; intros Hl Hs; cbn [sort_insert].
  - repeat constructor.
  - inversion Hl as [ | ? ? Hy Hl']; subst. inversion Hs as [ | ? ? Hs' Hhd]; subst.
    unfold by_score_desc at 1. rewrite sub_pos_ltb.
    destruct (PrimFloat.ltb (score x) (score y)) eqn:Hlt.
    + constructor; [ apply IH; assumption | ].
      apply HdRel_sort_insert; [ | assumption ].
      apply ltb_leb. exact Hlt.
    + constructor; [ assumption | ]. constructor.
      apply not_ltb_leb; assumption.
Qed.

Lemma sort_sorted (l : list ScoredDocument) :
  Forall not_nan l -> Sorted score_ge (sort by_score_desc l).
Proof.
  induction l as [ | x l IH]; intros H; cbn [sort fold_right]; [constructor | ].
  fold (sort by_score_desc l). inversion H; subst.
  apply sort_insert_sorted; [ assumption | | apply IH; assumption ].
  apply (Permutation_Forall (x := l)); [ symmetry; apply sort_perm | assumption ].
Qed.

Lemma passes_not_nan (l : list ScoredDocument) : Forall not_nan (filter passes l).
Proof.
  apply Forall_forall. intros d Hd. apply filter_In in Hd as [_ Hp].
  unfold passes in Hp. unfold not_nan. apply (ltb_not_nan _ _ Hp).
Qed.

Lemma Sorted_adjacent (l : list ScoredDocument) (d : ScoredDocument) :
  Sorted score_ge l ->
  forall i, S i < List.length l -> score_ge (nth i l d) (nth (S i) l d).
Proof.
  induction 1 as [ | x l Hs IH Hhd]; intros i Hi; cbn [List.length] in Hi; [lia | ].
  destruct i as [ | i].
  - destruct l as [ | y l]; cbn [List.length] in Hi; [lia | ].
    inversion Hhd; assumption.
  - apply IH. lia.
Qed.

End Sorting.

(* ================================================================== *)
(** * Claims about the retriever *)

Lemma scored_from_In (svc : nat -> fetch_outcome) (q : value)
    (documents : list Document) (d : ScoredDocument) :
  forall i,
    In d (scored_from svc i q documents)
    <-> exists k doc, nth_error documents k = Some doc
                      /\ d = mkScored doc (similarity q (embedding_of (svc (i + k)))).
Proof.
  induction documents as [ | doc rest IH]; intros i; cbn [scored_from In].
  - split; [ intros [] | intros ([ | k] & doc & H & _); discriminate ].
  - rewrite IH. split.
    + intros [H | (k & doc' & Hk & Hd)].
      * exists 0, doc. rewrite Nat.add_0_r. split; [reflexivity | congruence].
      * exists (S k), doc'. rewrite Nat.add_succ_r. split; assumption.
    + intros ([ | k] & doc' & Hk & Hd); cbn [nth_error] in Hk.
      * left. rewrite Nat.add_0_r in Hd. congruence.
      * right. exists k, doc'. rewrite Nat.add_succ_r in Hd. split; assumption.
Qed.

Lemma retrieved_perm (svc : embedding_service) (documents : list Document) :
  Permutation (retrieved svc documents) (filter passes (scored svc documents)).
Proof.
  unfold retrieved, scored.
  destruct (isArray (embedding_of (for_query svc))) eqn:Hq.
  - apply sort_perm.
  - rewrite scored_from_no_query by assumption. reflexivity.
Qed.

(** C2. For every query and document set, the list the retriever returns
    holds exactly the documents whose cosine similarity against the query
    embedding is strictly greater than 0.5: it is a rearrangement of the
    scored documents that pass the test; a document scoring exactly 0.5 is
    left out and one scoring 0.50001 is kept. *)
Theorem C2_retriever_keeps_scores_above_half
    (svc : embedding_service) (query : string) (documents : list Document) :
  exists out,
    outcome (retrieveRelevantDocsWithEmbeddings svc query documents) = Normal out
    /\ Permutation out
         (filter (fun d => PrimFloat.ltb 0.5 (score d)) (scored svc documents))
    /\ (forall d, In d out <->
          (exists k queryEmbedding embedding,
              nth_error documents k = Some (doc_of d)
              /\ outcome (getEmbedding (for_query svc) query) = Normal queryEmbedding
              /\ outcome (getEmbedding (for_document svc k) (content (doc_of d)))
                 = Normal embedding
              /\ outcome (cosineSimilarity queryEmbedding embedding)
                 = Normal (score d))
          /\ PrimFloat.ltb 0.5 (score d) = true)
    /\ (forall d, score d = 0.5%float -> ~ In d out)
    /\ (forall d, In d (scored svc documents) -> score d = 0.50001%float -> In d out).
Proof.
  exists (retrieved svc documents).
  rewrite retrieve_spec. split; [reflexivity | ].
  pose proof (retrieved_perm svc documents) as Hp.
  assert (Hin : forall d, In d (retrieved svc documents)
                  <-> In d (scored svc documents) /\ PrimFloat.ltb 0.5 (score d) = true).
  { intros d. rewrite <- (filter_In passes). split; apply Permutation_in;
      [ exact Hp | symmetry; exact Hp ]. }
  split; [exact Hp | ]. split; [ | split ].
  - intros d. rewrite Hin. unfold scored. rewrite scored_from_In.
    cbn [Nat.add]. split; intros [Hd Hpass]; (split; [ | exact Hpass ]).
    + destruct Hd as (k & doc & Hk & ->). cbn [doc_of score].
      exists k, (embedding_of (for_query svc)), (embedding_of (for_document svc k)).
      rewrite !getEmbedding_spec, cosineSimilarity_spec. repeat split. exact Hk.
    + destruct Hd as (k & qe & de & Hk & Hq & He & Hs).
      rewrite getEmbedding_spec in Hq, He. rewrite cosineSimilarity_spec in Hs.
      cbn [outcome snd] in Hq, He, Hs.
      injection Hq as <-. injection He as <-. injection Hs as Hs.
      exists k, (doc_of d). split; [exact Hk | ].
      destruct d as [doc x]. cbn [doc_of score] in *. congruence.
  - intros d Hs Hd. apply Hin in Hd as [_ Hd]. rewrite Hs in Hd. discriminate.
  - intros d Hd Hs. apply Hin. split; [assumption | ]. rewrite Hs. reflexivity.
Qed.

(** C3. For every query and every document set, if the query-embedding step
    yields a value that is not an array, the retriever returns the empty list
    right after reporting the failure: the only embedding request made is
    the one for the query, and no document is embedded or scored. *)
Theorem C3_query_embedding_not_array_exits_early
    (svc : embedding_service) (query : string) (documents : list Document)
    (v : value) :
  outcome (getEmbedding (for_query svc) query) = Normal v ->
  isArray v = false ->
  retrieveRelevantDocsWithEmbeddings svc query documents
  = (ConsoleLog "Generating query embedding..."
       :: trace (getEmbedding (for_query svc) query) ++ [early_exit_message],
     Normal [])
  /\ filter is_embedding_request
       (trace (retrieveRelevantDocsWithEmbeddings svc query documents))
     = [EmbeddingRequest query].
Proof.
  rewrite getEmbedding_spec, retrieve_spec. cbn [outcome trace fst snd].
  intros Hv Hn. injection Hv as Hv. subst v.
  unfold retrieved, retrieval_log. rewrite Hn. split; [reflexivity | ].
  cbn. destruct (call_failed (for_query svc)); reflexivity.
Qed.

Lemma C3_witness :
  let svc := mkService (Response true 200 (JsonResult (FirstItem VNull)))
                       (fun _ => Response true 200 (JsonResult (FirstItem (VArr [1%float])))) in
  let documents := [mkDocument "a.json" "A"; mkDocument "b.json" "B"] in
  retrieveRelevantDocsWithEmbeddings svc "q" documents
  = (ConsoleLog "Generating query embedding..."
       :: trace (getEmbedding (for_query svc) "q") ++ [early_exit_message],
     Normal [])
  /\ filter is_embedding_request
       (trace (retrieveRelevantDocsWithEmbeddings svc "q" documents))
     = [EmbeddingRequest "q"].
Proof.
  cbv zeta.
  apply (C3_query_embedding_not_array_exits_early _ "q" _ VNull); reflexivity.
Defined.

Lemma map_score_sort_insert (x : ScoredDocument) (l : list ScoredDocument) :
  map score (sort_insert by_score_desc x l)
  = sort_insert (fun a b => (b - a)%float) (score x) (map score l).
Proof.
  induction l as [ | y l IH]; cbn [sort_insert map]; [reflexivity | ].
  unfold by_score_desc at 1.
  destruct (PrimFloat.ltb 0 (score y - score x)); cbn [map]; [rewrite IH | ];
    reflexivity.
Qed.

(** The scores of a sorted list are the sorted scores. *)
Lemma map_score_sort (l : list ScoredDocument) :
  map score (sort by_score_desc l)
  = sort (fun a b => (b - a)%float) (map score l).
Proof.
  induction l as [ | x l IH]; cbn [sort fold_right map]; [reflexivity | ].
  fold (sort by_score_desc l). rewrite map_score_sort_insert, IH. reflexivity.
Qed.

(** C7. For every query and document set, the list the retriever returns
    holds the documents that pass the filter, in descending order of score:
    every element's score is greater than or equal to the score of the
    element after it.  When the surviving scores are 0.9, 0.6, 0.95, in
    document order, the returned scores are 0.95, 0.9, 0.6; a service whose
    three documents score exactly 0.9, 0.6 and 0.95 shows it. *)
Theorem C7_retriever_sorts_descending
    (svc : embedding_service) (query : string) (documents : list Document) :
  exists out,
    outcome (retrieveRelevantDocsWithEmbeddings svc query documents) = Normal out
    /\ Permutation out
         (filter (fun d => PrimFloat.ltb 0.5 (score d)) (scored svc documents))
    /\ Sorted score_ge out
    /\ (forall i d, S i < List.length out ->
          PrimFloat.leb (score (nth (S i) out d)) (score (nth i out d)) = true)
    /\ (map score
          (filter (fun d => PrimFloat.ltb 0.5 (score d)) (scored svc documents))
        = [0.9; 0.6; 0.95]%float ->
        map score out = [0.95; 0.9; 0.6]%float)
    /\ (forall a b c : Document,
          let answers v := Response true 200 (JsonResult (FirstItem (VArr v))) in
          outcome
            (retrieveRelevantDocsWithEmbeddings
               (mkService (answers [1; 0; 0; 0; 0]%float)
                          (fun i => match i with
                                    | 0 => answers [9; 3; 3; 1; 0]%float
                                    | 1 => answers [3; 4]%float
                                    | _ => answers [19; 6; 1; 1; 1]%float
                                    end))
               query [a; b; c])
          = Normal [mkScored c 0.95; mkScored a 0.9; mkScored b 0.6])%float
    /\ (forall a b c : Document,
          sort by_score_desc [mkScored a 0.9; mkScored b 0.6; mkScored c 0.95]
          = [mkScored c 0.95; mkScored a 0.9; mkScored b 0.6])%float.
Proof.
  exists (retrieved svc documents).
  rewrite retrieve_spec. split; [reflexivity | ].
  split; [apply retrieved_perm | ].
  assert (Hs : Sorted score_ge (retrieved svc documents)).
  { unfold retrieved. destruct (isArray (embedding_of (for_query svc))).
    - apply sort_sorted, passes_not_nan.
    - constructor. }
  split; [exact Hs | ]. split; [ | split; [ | split ] ].
  - intros i d Hi. apply (Sorted_adjacent _ d Hs i Hi).
  - intros Hscores. unfold retrieved, scored in *.
    destruct (isArray (embedding_of (for_query svc))) eqn:Hq.
    + fold passes in Hscores. rewrite map_score_sort. unfold passes at 1.
      fold passes. rewrite Hscores. reflexivity.
    + fold passes in Hscores. rewrite scored_from_no_query in Hscores by assumption.
      discriminate Hscores.
  - intros a b c answers. rewrite retrieve_spec. reflexivity.
  - intros a b c. reflexivity.
Qed.

(* ================================================================== *)
(** * Zero vectors and the fallback embedding *)

Section ZeroVectors.

Lemma sum_below_zero (f : nat -> float) (L : nat) :
  (forall i, i < L -> f i = 0%float) -> sum_below L f = 0%float.
Proof.
  induction L as [ | L IH]; intros H; cbn; [reflexivity | ].
  rewrite IH, H by auto with arith. reflexivity.
Qed.

Lemma square_of_zero (x : float) :
  PrimFloat.eqb x 0 = true -> (x * x)%float = 0%float.
Proof.
  intros H. destruct (eqb_zero_cases x H); subst x; reflexivity.
Qed.

Lemma zero_vector_index (a : list float) (i : nat) :
  zero_vector a -> i < List.length a -> PrimFloat.eqb (index a i) 0 = true.
Proof.
  intros Hz Hi. unfold zero_vector in Hz. rewrite Forall_forall in Hz.
  apply Hz. unfold index. apply nth_In. exact Hi.
Qed.

Lemma zero_vector_norm (a : list float) (L : nat) :
  zero_vector a -> L <= List.length a ->
  PrimFloat.sqrt (sum_below L (fun i => (index a i * index a i)%float)) = 0%float.
Proof.
  intros Hz HL. rewrite sum_below_zero; [reflexivity | ].
  intros i Hi. apply square_of_zero, zero_vector_index; [assumption | lia].
Qed.

Lemma spec_cosine_zero_l (a b : list float) :
  zero_vector a -> spec_cosine a b = 0%float.
Proof.
  intros Hz. unfold spec_cosine. destruct (Nat.eqb _ 0); [reflexivity | ].
  unfold spec_normA. rewrite zero_vector_norm by (unfold common_prefix; auto; lia).
  reflexivity.
Qed.

Lemma spec_cosine_zero_r (a b : list float) :
  zero_vector b -> spec_cosine a b = 0%float.
Proof.
  intros Hz. unfold spec_cosine. destruct (Nat.eqb _ 0); [reflexivity | ].
  unfold spec_normB. rewrite zero_vector_norm by (unfold common_prefix; auto; lia).
  change (PrimFloat.eqb 0 0) with true. rewrite orb_true_r. reflexivity.
Qed.

Lemma zero_vector_repeat (n : nat) : zero_vector (repeat 0%float n).
Proof.
  apply Forall_forall. intros x Hx. apply repeat_spec in Hx. subst x. reflexivity.
Qed.

Lemma similarity_fallback_l (v : value) : similarity fallback_vector v = 0%float.
Proof.
  destruct v; try reflexivity.
  apply spec_cosine_zero_l, zero_vector_repeat.
Qed.

Lemma similarity_fallback_r (v : value) : similarity v fallback_vector = 0%float.
Proof.
  destruct v; try reflexivity.
  apply spec_cosine_zero_r, zero_vector_repeat.
Qed.

Lemma embedding_of_failed (o : fetch_outcome) :
  call_failed o = true -> embedding_of o = fallback_vector.
Proof.
  destruct o as [ | [ | ] status [ | [ | v ] ] ]; cbn; congruence.
Qed.

End ZeroVectors.

(** C4. For every text, when the embedding call fails (transport failure,
    non-success status, or a body that cannot be parsed or read) the
    embedding client returns a vector of exactly 512 zeros instead of
    raising; the cosine similarity of that vector with every other value, on
    either side, is 0; so a document whose embedding failed is scored 0 and
    does not pass the 0.5 filter. *)
Theorem C4_failed_call_gives_zero_vector (o : fetch_outcome) (text : string) :
  call_failed o = true ->
  outcome (generateEmbeddings o text) = Normal (VArr (repeat 0%float 512))
  /\ outcome (getEmbedding o text) = Normal (VArr (repeat 0%float 512))
  /\ List.length (repeat 0%float 512) = 512
  /\ (forall v, outcome (cosineSimilarity (VArr (repeat 0%float 512)) v) = Normal 0%float
                /\ outcome (cosineSimilarity v (VArr (repeat 0%float 512))) = Normal 0%float)
  /\ (forall q doc, exists d,
        outcome (scoreDocument o q doc) = Normal d
        /\ doc_of d = doc /\ score d = 0%float
        /\ PrimFloat.ltb 0.5 (score d) = false).
Proof.
  intros Hf.
  rewrite generateEmbeddings_spec, getEmbedding_spec. cbn [outcome snd].
  rewrite (embedding_of_failed o Hf).
  split; [reflexivity | ]. split; [reflexivity | ].
  split; [apply repeat_length | ]. split.
  - intros v. rewrite !cosineSimilarity_spec. cbn [outcome snd].
    change (VArr (repeat 0%float 512)) with fallback_vector.
    rewrite similarity_fallback_l, similarity_fallback_r. split; reflexivity.
  - intros q doc. rewrite scoreDocument_spec. cbn [outcome snd].
    rewrite (embedding_of_failed o Hf), similarity_fallback_r.
    eexists. split; [reflexivity | ]. repeat split.
Qed.

Lemma C4_witness :
  outcome (generateEmbeddings (Response false 500 JsonRejects) "text")
  = Normal (VArr (repeat 0%float 512)).
Proof.
  exact (proj1 (C4_failed_call_gives_zero_vector
                  (Response false 500 JsonRejects) "text" eq_refl)).
Defined.

(** C5, the claim as stated fails: on the arrays [[1e200]] and [[1e200]] the
    squares overflow, both norms are infinite, and the quotient of two
    infinities is NaN. *)
Lemma C5_counterexample_overflow_gives_nan :
  cosineSimilarity (VArr [1e200%float]) (VArr [1e200%float]) = ret nan
  /\ PrimFloat.is_nan nan = true.
Proof. split; reflexivity. Qed.

(** C5, amended. [cosineSimilarity] is total and never raises.  It returns 0
    when either argument is missing or not an array, when the common prefix
    length is 0, or when either prefix norm is 0; so a zero vector on either
    side gives exactly 0 and not NaN.  The division is only reached with both
    norms different from 0.  (Nothing is said about NaN when a norm is NaN or
    infinite.) *)
Theorem C5_cosine_total_with_zero_guards (vecA vecB : value) :
  (exists x, outcome (cosineSimilarity vecA vecB) = Normal x)
  /\ (isArray vecA = false \/ isArray vecB = false ->
      outcome (cosineSimilarity vecA vecB) = Normal 0%float)
  /\ (forall a b, vecA = VArr a -> vecB = VArr b ->
        (common_prefix a b = 0 ->
         cosineSimilarity vecA vecB = ret 0%float)
        /\ (PrimFloat.eqb (spec_normA a b) 0 = true
            \/ PrimFloat.eqb (spec_normB a b) 0 = true ->
            cosineSimilarity vecA vecB = ret 0%float)
        /\ (zero_vector a \/ zero_vector b ->
            cosineSimilarity vecA vecB = ret 0%float
            /\ PrimFloat.is_nan 0 = false)
        /\ (cosineSimilarity vecA vecB = ret 0%float
            \/ (PrimFloat.eqb (spec_normA a b) 0 = false
                /\ PrimFloat.eqb (spec_normB a b) 0 = false
                /\ cosineSimilarity vecA vecB
                   = ret (spec_dot a b / (spec_normA a b * spec_normB a b))%float))).
Proof.
  split; [ | split ].
  - rewrite cosineSimilarity_spec. eexists. reflexivity.
  - rewrite cosineSimilarity_spec. cbn [outcome snd].
    intros [H | H]; f_equal;
      [ apply similarity_not_array_l | apply similarity_not_array_r ]; exact H.
  - intros a b -> ->. rewrite cosineSimilarity_arrays.
    split; [ | split; [ | split ] ].
    + intros HL. unfold spec_cosine. rewrite HL. reflexivity.
    + intros H. unfold spec_cosine. destruct (Nat.eqb _ 0); [reflexivity | ].
      destruct H as [H | H]; rewrite H, ?orb_true_r; reflexivity.
    + intros [H | H]; (split; [ | reflexivity ]);
        [ rewrite spec_cosine_zero_l | rewrite spec_cosine_zero_r ];
        trivial.
    + unfold spec_cosine. destruct (Nat.eqb _ 0); [left; reflexivity | ].
      destruct (PrimFloat.eqb (spec_normA a b) 0); [left; reflexivity | ].
      destruct (PrimFloat.eqb (spec_normB a b) 0); [left; reflexivity | ].
      right. repeat split.
Qed.

(* ================================================================== *)
(** * Which branches of the retriever can be taken *)

Section Branches.

Lemma embedding_log_quiet (o : fetch_outcome) (text : string) :
  existsb is_early_exit (embedding_log o text) = false
  /\ existsb is_document_error (embedding_log o text) = false.
Proof. unfold embedding_log. destruct (call_failed o); split; reflexivity. Qed.

Lemma cosine_log_quiet (a b : value) :
  existsb is_early_exit (cosine_log a b) = false
  /\ existsb is_document_error (cosine_log a b) = false.
Proof. unfold cosine_log. destruct (isArray a && isArray b); split; reflexivity. Qed.

Lemma scoring_log_quiet (svc : nat -> fetch_outcome) (q : value)
    (documents : list Document) :
  forall i,
    existsb is_early_exit (scoring_log svc i q documents) = false
    /\ existsb is_document_error (scoring_log svc i q documents) = false.
Proof.
  induction documents as [ | doc rest IH]; intros i; cbn [scoring_log].
  - split; reflexivity.
  - rewrite !existsb_app.
    destruct (embedding_log_quiet (svc i) (content doc)) as [-> ->].
    destruct (cosine_log_quiet q (embedding_of (svc i))) as [-> ->].
    destruct (IH (S i)) as [-> ->]. split; reflexivity.
Qed.

Lemma scored_from_fallback (svc : nat -> fetch_outcome)
    (documents : list Document) :
  forall i, Forall (fun d => score d = 0%float)
                   (scored_from svc i fallback_vector documents).
Proof.
  induction documents as [ | doc rest IH]; intros i; cbn [scored_from];
    constructor; [ apply similarity_fallback_l | apply IH ].
Qed.

Lemma filter_passes_zero (l : list ScoredDocument) :
  Forall (fun d => score d = 0%float) l -> filter passes l = [].
Proof.
  induction 1 as [ | d l Hd _ IH]; [reflexivity | ].
  cbn [filter]. unfold passes at 1. rewrite Hd.
  change (PrimFloat.ltb 0.5 0) with false. exact IH.
Qed.

End Branches.

(** C10, the claim as stated fails: a successful response whose first data
    item has no [embedding] property makes [getEmbedding] return
    [undefined], which is not an array, and the retriever then takes its
    early exit. *)
Lemma C10_counterexample_success_without_embedding :
  let o := Response true 200 (JsonResult (FirstItem VUndefined)) in
  outcome (getEmbedding o "q") = Normal VUndefined
  /\ isArray VUndefined = false
  /\ existsb is_early_exit
       (trace (retrieveRelevantDocsWithEmbeddings (mkService o (fun _ => o)) "q" []))
     = true.
Proof. cbv zeta. repeat split. Qed.

(** C10, amended. [getEmbedding] never raises: every failed call is replaced
    by the 512-zero fallback, which is an array, and a successful call
    returns [result.data[0].embedding] as it is, array or not.  The
    retriever's per-document [catch] branch is never taken.  Its early exit
    is taken exactly when the query call succeeds with an embedding that is
    not an array; a failed query call does not take it and reaches the empty
    result through every score being 0 and failing the [> 0.5] filter. *)
Theorem C10_embedding_never_raises_and_branches
    (svc : embedding_service) (query : string) (documents : list Document) :
  (forall o text,
      outcome (getEmbedding o text) = Normal (embedding_of o)
      /\ (call_failed o = true ->
          embedding_of o = VArr (repeat 0%float 512)
          /\ isArray (embedding_of o) = true))
  /\ existsb is_document_error
       (trace (retrieveRelevantDocsWithEmbeddings svc query documents)) = false
  /\ existsb is_early_exit
       (trace (retrieveRelevantDocsWithEmbeddings svc query documents))
     = negb (isArray (embedding_of (for_query svc)))
  /\ (isArray (embedding_of (for_query svc)) = false ->
      call_failed (for_query svc) = false)
  /\ (call_failed (for_query svc) = true ->
      existsb is_early_exit
        (trace (retrieveRelevantDocsWithEmbeddings svc query documents)) = false
      /\ Forall (fun d => score d = 0%float) (scored svc documents)
      /\ filter (fun d => PrimFloat.ltb 0.5 (score d)) (scored svc documents) = []
      /\ outcome (retrieveRelevantDocsWithEmbeddings svc query documents) = Normal []).
Proof.
  rewrite retrieve_spec. cbn [trace outcome fst snd].
  assert (Hfail : forall o, call_failed o = true ->
                    embedding_of o = VArr (repeat 0%float 512)
                    /\ isArray (embedding_of o) = true).
  { intros o Hf. rewrite (embedding_of_failed o Hf). split; reflexivity. }
  assert (Hdoc : existsb is_document_error (retrieval_log svc query documents) = false).
  { unfold retrieval_log. cbn [existsb is_document_error orb].
    rewrite existsb_app.
    destruct (embedding_log_quiet (for_query svc) query) as [_ ->].
    destruct (isArray (embedding_of (for_query svc))); [ | reflexivity ].
    cbn [existsb is_document_error orb].
    apply scoring_log_quiet. }
  assert (Hexit : existsb is_early_exit (retrieval_log svc query documents)
                  = negb (isArray (embedding_of (for_query svc)))).
  { unfold retrieval_log. cbn [existsb is_early_exit orb].
    rewrite existsb_app.
    destruct (embedding_log_quiet (for_query svc) query) as [-> _].
    destruct (isArray (embedding_of (for_query svc))); [ | reflexivity ].
    cbn [existsb is_early_exit orb negb].
    apply scoring_log_quiet. }
  split; [ | split; [exact Hdoc | split; [exact Hexit | split ] ] ].
  - intros o text. rewrite getEmbedding_spec. split; [reflexivity | apply Hfail].
  - intros Hn. destruct (call_failed (for_query svc)) eqn:Hf; [ | reflexivity ].
    destruct (Hfail _ Hf) as [_ Ha]. congruence.
  - intros Hf. destruct (Hfail _ Hf) as [He Ha].
    rewrite Hexit, Ha.
    assert (Hz : Forall (fun d => score d = 0%float) (scored svc documents)).
    { unfold scored. rewrite (embedding_of_failed _ Hf). apply scored_from_fallback. }
    pose proof (filter_passes_zero _ Hz) as Hnone.
    split; [reflexivity | ]. split; [exact Hz | ]. split; [exact Hnone | ].
    unfold retrieved. rewrite Ha. fold passes. unfold passes in Hnone.
    unfold passes. rewrite Hnone. reflexivity.
Qed.

(* ================================================================== *)
(** * A vector against itself and against its negation *)

Section SelfSimilarity.

Lemma reduce_squares_sum (v : list float) :
  reduce_squares v
  = sum_below (List.length v) (fun i => (index v i * index v i)%float).
Proof.
  unfold reduce_squares. rewrite <- (firstn_all v) at 1.
  rewrite firstn_index by lia. rewrite fold_left_of_map.
  apply (fold_seq_sum_below (fun i => (index v i * index v i)%float)).
Qed.

Lemma index_negate (v : list float) (i : nat) :
  index (negate v) i = (- index v i)%float.
Proof.
  unfold index, negate. change nan with (- nan)%float at 1. apply map_nth.
Qed.

Lemma common_prefix_self (v : list float) : common_prefix v v = List.length v.
Proof. unfold common_prefix. lia. Qed.

Lemma common_prefix_negate (v : list float) :
  common_prefix v (negate v) = List.length v.
Proof. unfold common_prefix, negate. rewrite length_map. lia. Qed.

(** Summing the negated squares from [+0] gives the negated sum, except that
    a zero sum stays [+0]. *)
Lemma sum_neg_squares (g : nat -> float) (L : nat) :
  Prim2SF (sum_below L (fun i => (- (g i * g i))%float))
  = SFnegz (Prim2SF (sum_below L (fun i => (g i * g i)%float)))
  /\ SFnonneg (Prim2SF (sum_below L (fun i => (g i * g i)%float))).
Proof.
  induction L as [ | L [IHeq IHnn]]; cbn [sum_below].
  - split; reflexivity.
  - rewrite !add_spec, opp_spec, IHeq.
    apply SFadd_negz; try apply Prim2SF_valid; [ exact IHnn | ].
    rewrite mul_spec. apply SFmul_self_nonneg.
Qed.

Lemma spec_cosine_self (v : list float) :
  spec_cosine v v
  = if Nat.eqb (List.length v) 0 then 0%float
    else if PrimFloat.eqb (PrimFloat.sqrt (reduce_squares v)) 0 then 0%float
         else (reduce_squares v
               / (PrimFloat.sqrt (reduce_squares v)
                  * PrimFloat.sqrt (reduce_squares v)))%float.
Proof.
  unfold spec_cosine, spec_dot, spec_normA, spec_normB.
  rewrite common_prefix_self, <- reduce_squares_sum, orb_diag. reflexivity.
Qed.

Lemma spec_cosine_negate (v : list float) :
  spec_cosine v (negate v)
  = if Nat.eqb (List.length v) 0 then 0%float
    else if PrimFloat.eqb (PrimFloat.sqrt (reduce_squares v)) 0 then 0%float
         else (sum_below (List.length v) (fun i => - (index v i * index v i))
               / (PrimFloat.sqrt (reduce_squares v)
                  * PrimFloat.sqrt (reduce_squares v)))%float.
Proof.
  unfold spec_cosine, spec_dot, spec_normA, spec_normB.
  rewrite common_prefix_negate.
  rewrite (sum_below_ext (fun i => (index v i * index (negate v) i)%float)
             (fun i => (- (index v i * index v i))%float))
    by (intros i _; rewrite index_negate; apply mul_opp_r).
  rewrite (sum_below_ext (fun i => (index (negate v) i * index (negate v) i)%float)
             (fun i => (index v i * index v i)%float))
    by (intros i _; rewrite index_negate; apply mul_opp_opp).
  rewrite <- reduce_squares_sum, orb_diag. reflexivity.
Qed.

(** When the norm is not 0 the dot product with the negation is the negated
    squared norm. *)
Lemma dot_negate (v : list float) :
  PrimFloat.eqb (PrimFloat.sqrt (reduce_squares v)) 0 = false ->
  sum_below (List.length v) (fun i => (- (index v i * index v i))%float)
  = (- reduce_squares v)%float.
Proof.
  intros Hn. apply Prim2SF_inj. rewrite opp_spec.
  destruct (sum_neg_squares (index v) (List.length v)) as [Heq _].
  rewrite Heq, <- reduce_squares_sum.
  pose proof (sqrt_not_zero _ Hn) as Hz.
  destruct (Prim2SF (reduce_squares v)) as [s | s | | s m e]; try reflexivity.
  exfalso. apply (Hz s). reflexivity.
Qed.

(** The score against the negation is the negated score against itself, or
    both are 0. *)
Lemma cosine_of_negation (v : list float) :
  exists c,
    cosineSimilarity (VArr v) (VArr v) = ret c
    /\ (cosineSimilarity (VArr v) (VArr (negate v)) = ret (- c)%float
        \/ (c = 0%float
            /\ cosineSimilarity (VArr v) (VArr (negate v)) = ret 0%float)).
Proof.
  rewrite !cosineSimilarity_arrays, spec_cosine_self, spec_cosine_negate.
  destruct (Nat.eqb (List.length v) 0); [ eexists; split; [reflexivity | right; split; reflexivity] | ].
  destruct (PrimFloat.eqb (PrimFloat.sqrt (reduce_squares v)) 0) eqn:Hn;
    [ eexists; split; [reflexivity | right; split; reflexivity] | ].
  eexists. split; [reflexivity | left].
  rewrite (dot_negate v Hn), div_opp_l. reflexivity.
Qed.

End SelfSimilarity.

(** C6, the claim as stated fails: for the nonzero vector [[1, 1]] the norm
    [sqrt 2] is rounded, its square is not 2, and the score against itself
    is 0.9999999999999998 (and -0.9999999999999998 against the negation). *)
Lemma C6_counterexample_rounded_norm :
  cosineSimilarity (VArr [1; 1]%float) (VArr [1; 1]%float)
  = ret 0x1.ffffffffffffep-1%float
  /\ cosineSimilarity (VArr [1; 1]%float) (VArr (negate [1; 1]%float))
     = ret (-0x1.ffffffffffffep-1)%float
  /\ PrimFloat.eqb 0x1.ffffffffffffep-1 1 = false.
Proof. repeat split. Qed.

(** C6, amended. For every numeric vector [v], the score of [v] against its
    negation is exactly the negated score of [v] against itself, or both
    scores are exactly 0.  When moreover the squared norm
    [s = v[0]*v[0] + ...] (accumulated in binary64 as the code does) is
    positive and finite and is reproduced exactly by its rounded square root
    ([sqrt(s) * sqrt(s) = s]), [cosineSimilarity(v, v)] is 1.0 and
    [cosineSimilarity(v, -v)] is -1.0. *)
Theorem C6_self_similarity_with_exact_norm (v : list float) :
  (exists c,
      cosineSimilarity (VArr v) (VArr v) = ret c
      /\ (cosineSimilarity (VArr v) (VArr (negate v)) = ret (- c)%float
          \/ (c = 0%float
              /\ cosineSimilarity (VArr v) (VArr (negate v)) = ret 0%float)))
  /\ (PrimFloat.ltb 0 (reduce_squares v) = true ->
      PrimFloat.ltb (reduce_squares v) infinity = true ->
      (PrimFloat.sqrt (reduce_squares v) * PrimFloat.sqrt (reduce_squares v))%float
      = reduce_squares v ->
      cosineSimilarity (VArr v) (VArr v) = ret 1%float
      /\ cosineSimilarity (VArr v) (VArr (negate v)) = ret (-1)%float).
Proof.
  split; [apply cosine_of_negation | ].
  intros Hpos Hfin Hexact.
  assert (HL : Nat.eqb (List.length v) 0 = false).
  { destruct v; [ discriminate Hpos | reflexivity ]. }
  assert (Hn : PrimFloat.eqb (PrimFloat.sqrt (reduce_squares v)) 0 = false).
  { destruct (PrimFloat.eqb (PrimFloat.sqrt (reduce_squares v)) 0) eqn:Hz;
      [ | reflexivity ].
    rewrite (square_of_zero _ Hz) in Hexact. rewrite <- Hexact in Hpos.
    discriminate Hpos. }
  rewrite !cosineSimilarity_arrays, spec_cosine_self, spec_cosine_negate.
  rewrite HL, Hn, (dot_negate v Hn), div_opp_l, Hexact.
  rewrite (div_same _ Hpos Hfin). split; reflexivity.
Qed.

Lemma C6_witness :
  cosineSimilarity (VArr [3; 4]%float) (VArr [3; 4]%float) = ret 1%float
  /\ cosineSimilarity (VArr [3; 4]%float) (VArr [-3; -4]%float) = ret (-1)%float.
Proof.
  apply (proj2 (C6_self_similarity_with_exact_norm [3; 4]%float)); reflexivity.
Defined.

(* ================================================================== *)
(** * The document loader and the orchestrator *)

Section Orchestrator.

Lemma or_empty_Some (s : string) : or_empty (Some s) = s.
Proof.
  cbn [or_empty]. destruct (String.eqb_spec s EmptyString); congruence.
Qed.

Lemma loadDocument_spec (e : dir_entry) :
  loadDocument e
  = (match state e with
     | JsonValue _ => []
     | _ => [ConsoleError ("Error loading " ++ name e ++ ":")]
     end,
     Normal (mkDocument (name e) (loaded_content (state e)))).
Proof.
  unfold loadDocument.
  destruct (state e) as [ | | | [s | ] ]; cbn; rewrite ?or_empty_Some; try reflexivity.
  destruct (String.eqb_spec s EmptyString); congruence.
Qed.

Lemma mapM_spec {A B} (f : A -> M B) (log : A -> list event) (g : A -> B)
    (xs : list A) :
  (forall x, f x = (log x, Normal (g x))) ->
  mapM f xs = (flat_map log xs, Normal (map g xs)).
Proof.
  intros H. induction xs as [ | x xs IH]; [reflexivity | ].
  cbn [mapM flat_map map]. rewrite H. cbn [bind]. rewrite IH. cbn [bind ret].
  rewrite ?app_nil_r. reflexivity.
Qed.

Lemma loadDocuments_spec (listing : list dir_entry) :
  loadDocuments listing = (load_log listing, Normal (loaded listing)).
Proof.
  unfold loadDocuments, load_log, loaded.
  apply (mapM_spec loadDocument). apply loadDocument_spec.
Qed.

Lemma generateAnswer_spec (o : chat_outcome) (query context : string) :
  generateAnswerWithOpenAI o query context
  = (answer_log o query context, Normal (answer_of o)).
Proof. destruct o; reflexivity. Qed.

Lemma main_spec (w : world) : main w = (main_log w, Normal tt).
Proof.
  unfold main, main_log, question. rewrite loadDocuments_spec.
  cbn [bind emit ret app]. rewrite retrieve_spec. cbn [bind].
  destruct (retrieved (embeddings w) (loaded (listing w))) as [ | d rel].
  - cbn [List.length Nat.eqb bind emit ret app].
    rewrite ?app_nil_r. reflexivity.
  - cbn [List.length Nat.eqb].
    fold (context_of (d :: rel)). rewrite generateAnswer_spec.
    cbn [bind emit ret app]. rewrite ?app_nil_r.
    rewrite <- ?app_assoc. reflexivity.
Qed.

Lemma load_log_no_chat (listing : list dir_entry) :
  filter is_chat_request (load_log listing) = [].
Proof.
  unfold load_log. induction (filter is_json listing) as [ | e l IH]; [reflexivity | ].
  cbn [flat_map]. rewrite filter_app, IH.
  destruct (state e); reflexivity.
Qed.

Lemma scoring_log_no_chat (svc : nat -> fetch_outcome) (q : value)
    (documents : list Document) :
  forall i, filter is_chat_request (scoring_log svc i q documents) = [].
Proof.
  induction documents as [ | doc rest IH]; intros i; [reflexivity | ].
  cbn [scoring_log]. rewrite !filter_app, IH.
  unfold embedding_log, cosine_log.
  destruct (call_failed (svc i)), (isArray q && isArray (embedding_of (svc i)));
    reflexivity.
Qed.

Lemma retrieval_log_no_chat (svc : embedding_service) (query : string)
    (documents : list Document) :
  filter is_chat_request (retrieval_log svc query documents) = [].
Proof.
  unfold retrieval_log. cbn [filter is_chat_request]. rewrite filter_app.
  replace (filter is_chat_request (embedding_log (for_query svc) query)) with (@nil event)
    by (unfold embedding_log; destruct (call_failed (for_query svc)); reflexivity).
  destruct (isArray (embedding_of (for_query svc))); [ | reflexivity ].
  cbn [filter is_chat_request app]. apply scoring_log_no_chat.
Qed.

End Orchestrator.

(** C8. For every directory listing, the document loader returns exactly one
    Document per file whose name ends in [.json], in listing order and with
    the file's name; when reading or parsing the file fails or its [data]
    field is absent, that Document's content is the empty string, and the
    load goes on with the remaining files: the loader never raises. *)
Theorem C8_loader_one_document_per_json_file (listing : list dir_entry) :
  exists docs,
    outcome (loadDocuments listing) = Normal docs
    /\ map filename docs
       = filter (fun f => endsWith f ".json") (map name listing)
    /\ Forall2
         (fun e d =>
            filename d = name e
            /\ (no_data (state e) -> content d = EmptyString)
            /\ (forall s, state e = JsonValue (Some s) -> content d = s))
         (filter (fun e => endsWith (name e) ".json") listing) docs.
Proof.
  exists (loaded listing). rewrite loadDocuments_spec.
  split; [reflexivity | ]. unfold loaded, is_json. split.
  - induction listing as [ | e l IH]; [reflexivity | ].
    cbn [filter map]. destruct (endsWith (name e) ".json"); cbn [map filename];
      rewrite IH; reflexivity.
  - induction (filter (fun e => endsWith (name e) ".json") listing) as [ | e l IH];
      cbn [map]; constructor; [ | exact IH ].
    cbn [filename content]. split; [reflexivity | ]. split.
    + intros [-> | [-> | [-> | ->]]]; reflexivity.
    + intros s ->. reflexivity.
Qed.

(** C9. For every run, if the retriever returns an empty list the
    orchestrator prints the no-relevant-documents message and closes without
    any request to the answer generator; otherwise the answer generator is
    called once, and the context it is given is the contents of the
    surviving documents, in ranked order, joined by a blank line. *)
Theorem C9_orchestrator_context_or_no_documents (w : world) :
  exists documents relevantDocs,
    outcome (loadDocuments (listing w)) = Normal documents
    /\ outcome (retrieveRelevantDocsWithEmbeddings (embeddings w) (typed w) documents)
       = Normal relevantDocs
    /\ outcome (main w) = Normal tt
    /\ match relevantDocs with
       | [] =>
         (exists before,
             trace (main w)
             = before ++ [ConsoleLog "No relevant documents found."; RlClose])
         /\ filter is_chat_request (trace (main w)) = []
       | _ :: _ =>
         let context :=
           String.concat (newline ++ newline)
             (map (fun d => content (doc_of d)) relevantDocs) in
         filter is_chat_request (trace (main w))
         = [ChatRequest system_prompt (user_prompt (typed w) context)]
         /\ exists before after,
              trace (main w)
              = before
                ++ trace (generateAnswerWithOpenAI (chat w) (typed w) context)
                ++ after
       end.
Proof.
  exists (loaded (listing w)), (retrieved (embeddings w) (loaded (listing w))).
  rewrite loadDocuments_spec, retrieve_spec, main_spec.
  cbn [outcome trace fst snd]. repeat (split; [reflexivity | ]).
  unfold main_log.
  destruct (retrieved (embeddings w) (loaded (listing w))) as [ | d rel] eqn:Hrel.
  - split.
    + eexists. rewrite !app_assoc. reflexivity.
    + rewrite !filter_app, load_log_no_chat, retrieval_log_no_chat. reflexivity.
  - cbv zeta. split.
    + rewrite !filter_app, load_log_no_chat, retrieval_log_no_chat.
      unfold answer_log, context_of, join. destruct (chat w); reflexivity.
    + rewrite generateAnswer_spec. cbn [fst]. fold (join (newline ++ newline)).
      fold (context_of (d :: rel)).
      exists (load_log (listing w)
              ++ [LogDocuments (loaded (listing w));
                  Question "Ask a question: "]
              ++ retrieval_log (embeddings w) (typed w) (loaded (listing w))).
      eexists. rewrite <- !app_assoc. reflexivity.
Qed.

Example join_blank_line :
  join (newline ++ newline) ["A"; "B"; "C"]%string
  = ("A" ++ newline ++ newline ++ "B" ++ newline ++ newline ++ "C")%string.
Proof. reflexivity. Qed.

(* ================================================================== *)
(** * Runs on concrete inputs *)

Section Runs.

Let answers (v : list float) : fetch_outcome :=
  Response true 200 (JsonResult (FirstItem (VArr v))).

Let docA := mkDocument "a.json" "A".
Let docB := mkDocument "b.json" "B".
Let docC := mkDocument "c.json" "C".

(** Three documents of which only the second is close to the query. *)
Let service : embedding_service :=
  mkService (answers [1; 0]%float)
            (fun i => match i with
                      | 0 => answers [0; 1]%float
                      | 1 => answers [1; 0]%float
                      | _ => answers [1; 2]%float
                      end).

Example endsWith_json :
  endsWith "a.json" ".json" = true
  /\ endsWith "json" ".json" = false
  /\ endsWith "a.json.bak" ".json" = false.
Proof. repeat split. Qed.

Example retrieve_only_B :
  outcome (retrieveRelevantDocsWithEmbeddings service "q" [docA; docB; docC])
  = Normal [mkScored docB 1%float].
Proof. reflexivity. Qed.

Example retrieve_excludes_exactly_half :
  outcome (cosineSimilarity (VArr [1; 1; 1; 1]%float) (VArr [1; 0; 0; 0]%float))
  = Normal 0.5%float
  /\ outcome (retrieveRelevantDocsWithEmbeddings
                (mkService (answers [1; 1; 1; 1]%float)
                           (fun _ => answers [1; 0; 0; 0]%float))
                "q" [docA])
     = Normal [].
Proof. split; reflexivity. Qed.

Example retrieve_failed_query :
  outcome (retrieveRelevantDocsWithEmbeddings
             (mkService FetchRejects (fun _ => answers [1; 0]%float))
             "q" [docA; docB])
  = Normal [].
Proof. reflexivity. Qed.

Example main_context_from_B :
  filter is_chat_request
    (trace (main (mkWorld [mkEntry "a.json" (JsonValue (Some "A"%string));
                           mkEntry "notes.txt" (JsonValue (Some "N"%string));
                           mkEntry "b.json" (JsonValue (Some "B"%string));
                           mkEntry "c.json" NotJson]
                          "q" service (ChatAnswer "ok"))))
  = [ChatRequest system_prompt (user_prompt "q" "B")].
Proof. reflexivity. Qed.

Example main_no_relevant_documents :
  trace (main (mkWorld [mkEntry "a.json" (JsonValue (Some "A"%string))]
                       "q"
                       (mkService (answers [1; 0]%float) (fun _ => answers [0; 1]%float))
                       (ChatAnswer "ok")))
  = [ LogDocuments [mkDocument "a.json" "A"]; Question "Ask a question: ";
      ConsoleLog "Generating query embedding...";
      ConsoleLog "q"; EmbeddingRequest "q";
      ConsoleLog "Embedding generated successfully";
      ConsoleLog "Comparing with document embeddings...";
      ConsoleLog "A"; EmbeddingRequest "A";
      ConsoleLog "Embedding generated successfully";
      ConsoleLog "No relevant documents found."; RlClose ].
Proof. reflexivity. Qed.

End Runs.

(* ================================================================== *)
(** * More facts about binary64 arithmetic *)

Section Binary64Order.

Local Open Scope Z_scope.

Lemma SFmul_comm (x y : spec_float) : SFmul prec emax x y = SFmul prec emax y x.
Proof.
  destruct x as [sx | sx | | sx mx ex], y as [sy | sy | | sy my ey];
    cbn [SFmul]; rewrite ?(xorb_comm sx sy); try reflexivity.
  rewrite (Pos.mul_comm mx my), (Z.add_comm ex ey). reflexivity.
Qed.

Lemma mul_comm (x y : float) : (x * y = y * x)%float.
Proof. apply Prim2SF_inj. rewrite !mul_spec. apply SFmul_comm. Qed.

(** Two numbers that compare equal are the same, or are the two zeros. *)
Lemma SFcompare_Eq (x s : spec_float) :
  SFcompare x s = Some Eq ->
  x = s \/ (exists a b, x = S754_zero a /\ s = S754_zero b).
Proof.
  destruct x as [sx | sx | | sx mx ex], s as [ss | ss | | ss ms es];
    cbn [SFcompare]; intros H;
    try (right; eauto; fail);
    try discriminate;
    repeat match goal with b : bool |- _ => destruct b end;
    try discriminate; try (left; reflexivity).
  - rewrite compare_cont_Eq in H.
    destruct (Z.compare_spec ex es); try discriminate.
    destruct (Z.compare_spec (Zpos mx) (Zpos ms)); try discriminate.
    left. congruence.
  - rewrite compare_cont_Eq in H.
    destruct (Z.compare_spec ex es); try discriminate.
    destruct (Z.compare_spec (Zpos mx) (Zpos ms)); try discriminate.
    left. congruence.
Qed.

Lemma SFcompare_zero_l (a b : bool) (y : spec_float) :
  SFcompare (S754_zero a) y = SFcompare (S754_zero b) y.
Proof. destruct y; reflexivity. Qed.

Lemma SFcompare_refl (x : spec_float) :
  x <> S754_nan -> SFcompare x x = Some Eq.
Proof.
  destruct x as [s | s | | s m e]; cbn [SFcompare]; intros H;
    try congruence; try (destruct s; reflexivity).
  rewrite Z.compare_refl, compare_cont_Eq, Z.compare_refl. destruct s; reflexivity.
Qed.

(** Numbers equal to the same number are not strictly ordered. *)
Lemma ltb_eqb_false (x y s : float) :
  (x =? s)%float = true -> (y =? s)%float = true -> (x <? y)%float = false.
Proof.
  rewrite !eqb_spec, ltb_spec. unfold SFeqb, SFltb. intros Hx Hy.
  destruct (SFcompare (Prim2SF x) (Prim2SF s)) as [[ | | ] | ] eqn:Hxs; try discriminate.
  destruct (SFcompare (Prim2SF y) (Prim2SF s)) as [[ | | ] | ] eqn:Hys; try discriminate.
  assert (Hsy : SFcompare (Prim2SF s) (Prim2SF y) = Some Eq).
  { rewrite (SFcompare_antisym (Prim2SF y) (Prim2SF s)), Hys. reflexivity. }
  apply SFcompare_Eq in Hxs as [-> | (a & b & -> & Hs)].
  - rewrite Hsy. reflexivity.
  - rewrite Hs in Hsy. rewrite (SFcompare_zero_l a b), Hsy. reflexivity.
Qed.

Lemma SFcompare_finite_pos (m1 : positive) (e1 : Z) (m2 : positive) (e2 : Z) :
  SFcompare (S754_finite false m1 e1) (S754_finite false m2 e2)
  = Some (match e1 ?= e2 with
          | Lt => Lt
          | Gt => Gt
          | Eq => Zpos m1 ?= Zpos m2
          end).
Proof. reflexivity. Qed.

Lemma SFcompare_finite_neg (m1 : positive) (e1 : Z) (m2 : positive) (e2 : Z) :
  SFcompare (S754_finite true m1 e1) (S754_finite true m2 e2)
  = Some (match e1 ?= e2 with
          | Lt => Gt
          | Gt => Lt
          | Eq => CompOpp (Zpos m1 ?= Zpos m2)
          end).
Proof. reflexivity. Qed.

Lemma SFleb_trans (x y z : spec_float) :
  SFleb x y = true -> SFleb y z = true -> SFleb x z = true.
Proof.
  unfold SFleb.
  destruct x as [sx | sx | | sx mx ex], y as [sy | sy | | sy my ey],
           z as [sz | sz | | sz mz ez];
    try (cbn [SFcompare]; intros; discriminate);
    try (repeat match goal with b : bool |- _ => destruct b end;
         cbn [SFcompare]; intros; (reflexivity || discriminate || assumption)).
  destruct sx, sy, sz; try (cbn [SFcompare]; intros; (reflexivity || discriminate));
    rewrite ?SFcompare_finite_pos, ?SFcompare_finite_neg;
    destruct (Z.compare_spec ex ey), (Z.compare_spec ey ez), (Z.compare_spec ex ez);
      try lia; try (intros; (reflexivity || discriminate));
    destruct (Z.compare_spec (Zpos mx) (Zpos my)), (Z.compare_spec (Zpos my) (Zpos mz)),
             (Z.compare_spec (Zpos mx) (Zpos mz));
      cbn [CompOpp]; try lia; intros; (reflexivity || discriminate).
Qed.

Lemma leb_trans (x y z : float) :
  (x <=? y)%float = true -> (y <=? z)%float = true -> (x <=? z)%float = true.
Proof. rewrite !leb_spec. apply SFleb_trans. Qed.

(** *** Sums of negated terms *)

Lemma cond_Zopp_negb (s : bool) (m : Z) :
  cond_Zopp (negb s) m = - cond_Zopp s m.
Proof. destruct s; cbn [cond_Zopp negb]; lia. Qed.

Lemma binary_normalize_opp (D e : Z) :
  emin <= e ->
  binary_normalize prec emax (- D) e false
  = SFnegz (binary_normalize prec emax D e false)
  /\ SFnot_neg_zero (binary_normalize prec emax D e false).
Proof.
  intros He. unfold SFnot_neg_zero.
  destruct D as [ | m | m ]; cbn [Z.opp binary_normalize].
  - split; [reflexivity | discriminate].
  - change true with (negb false). rewrite binary_round_opp.
    destruct (binary_round_pos false m e He) as [(m' & e' & ->) | ->];
      split; try reflexivity; discriminate.
  - change false with (negb true) at 1. rewrite binary_round_opp.
    destruct (binary_round_pos true m e He) as [(m' & e' & ->) | ->];
      split; try reflexivity; discriminate.
Qed.

Lemma SFadd_negz_any (S p : spec_float) :
  valid_binary S = true -> valid_binary p = true ->
  SFnot_neg_zero S ->
  SFadd prec emax (SFnegz S) (SFopp p) = SFnegz (SFadd prec emax S p)
  /\ SFnot_neg_zero (SFadd prec emax S p).
Proof.
  unfold SFnot_neg_zero. intros HvS Hvp HS.
  destruct S as [sS | sS | | sS mS eS], p as [sp | sp | | sp mp ep];
    try (repeat match goal with b : bool |- _ => destruct b end;
         try congruence; cbn; (split; [reflexivity | discriminate])).
  cbn [SFnegz SFopp SFadd].
  apply bounded_canonical in HvS as (HeS & _), Hvp as (Hep & _).
  rewrite !cond_Zopp_negb, <- Z.opp_add_distr.
  apply binary_normalize_opp. lia.
Qed.

(** A zero divided by anything is a zero or NaN. *)
Lemma div_zero_l (x y : float) :
  Prim2SF x = S754_zero false ->
  (x / y =? 0)%float = true \/ is_nan (x / y) = true.
Proof.
  intros Hx. unfold is_nan. rewrite !eqb_spec, div_spec, Hx.
  change (Prim2SF 0) with (S754_zero false).
  destruct (Prim2SF y) as [sy | sy | | sy my ey]; cbn [SF64div SFdiv];
    try (right; reflexivity); left; destruct sy; reflexivity.
Qed.

End Binary64Order.

(* ================================================================== *)
(** * Further properties of the vector math *)

Section VectorSymmetries.

Lemma common_prefix_comm (a b : list float) : common_prefix a b = common_prefix b a.
Proof. unfold common_prefix. apply Nat.min_comm. Qed.

Lemma spec_cosine_comm (a b : list float) : spec_cosine a b = spec_cosine b a.
Proof.
  unfold spec_cosine, spec_dot, spec_normA, spec_normB.
  rewrite (common_prefix_comm b a).
  rewrite (sum_below_ext (fun i => (index b i * index a i)%float)
             (fun i => (index a i * index b i)%float))
    by (intros i _; apply mul_comm).
  rewrite (orb_comm (PrimFloat.eqb (PrimFloat.sqrt
             (sum_below (common_prefix a b) (fun i => (index b i * index b i)%float))) 0)).
  rewrite (mul_comm (PrimFloat.sqrt
             (sum_below (common_prefix a b) (fun i => (index b i * index b i)%float)))).
  reflexivity.
Qed.

Lemma spec_cosine_negate_both (a b : list float) :
  spec_cosine (negate a) (negate b) = spec_cosine a b.
Proof.
  assert (HL : common_prefix (negate a) (negate b) = common_prefix a b)
    by (unfold common_prefix, negate; rewrite !length_map; reflexivity).
  unfold spec_cosine, spec_dot, spec_normA, spec_normB. rewrite HL.
  rewrite (sum_below_ext (fun i => (index (negate a) i * index (negate b) i)%float)
             (fun i => (index a i * index b i)%float))
    by (intros i _; rewrite !index_negate; apply mul_opp_opp).
  rewrite (sum_below_ext (fun i => (index (negate a) i * index (negate a) i)%float)
             (fun i => (index a i * index a i)%float))
    by (intros i _; rewrite !index_negate; apply mul_opp_opp).
  rewrite (sum_below_ext (fun i => (index (negate b) i * index (negate b) i)%float)
             (fun i => (index b i * index b i)%float))
    by (intros i _; rewrite !index_negate; apply mul_opp_opp).
  reflexivity.
Qed.

(** Summing negated terms from [+0] gives the negated sum, except that a
    zero sum stays [+0]; a sum from [+0] is never [-0]. *)
Lemma sum_neg_any (g : nat -> float) (L : nat) :
  Prim2SF (sum_below L (fun i => (- g i)%float))
  = SFnegz (Prim2SF (sum_below L g))
  /\ SFnot_neg_zero (Prim2SF (sum_below L g)).
Proof.
  induction L as [ | L [IHeq IHnz]]; cbn [sum_below].
  - split; [reflexivity | discriminate].
  - rewrite !add_spec, opp_spec, IHeq.
    apply SFadd_negz_any; try apply Prim2SF_valid. exact IHnz.
Qed.

Lemma spec_cosine_negate_r (a b : list float) :
  spec_cosine a (negate b)
  = if Nat.eqb (common_prefix a b) 0 then 0%float
    else if PrimFloat.eqb (spec_normA a b) 0 || PrimFloat.eqb (spec_normB a b) 0
         then 0%float
         else (sum_below (common_prefix a b) (fun i => - (index a i * index b i))
               / (spec_normA a b * spec_normB a b))%float.
Proof.
  assert (HL : common_prefix a (negate b) = common_prefix a b)
    by (unfold common_prefix, negate; rewrite length_map; reflexivity).
  unfold spec_cosine, spec_dot, spec_normA, spec_normB. rewrite HL.
  rewrite (sum_below_ext (fun i => (index a i * index (negate b) i)%float)
             (fun i => (- (index a i * index b i))%float))
    by (intros i _; rewrite index_negate; apply mul_opp_r).
  rewrite (sum_below_ext (fun i => (index (negate b) i * index (negate b) i)%float)
             (fun i => (index b i * index b i)%float))
    by (intros i _; rewrite !index_negate; apply mul_opp_opp).
  reflexivity.
Qed.

End VectorSymmetries.

(** X5. [cosineSimilarity] is symmetric: exchanging the two arguments, of
    whatever kind, gives the same result and the same console output. *)
Theorem cosineSimilarity_symmetric (vecA vecB : value) :
  cosineSimilarity vecA vecB = cosineSimilarity vecB vecA.
Proof.
  rewrite !cosineSimilarity_spec. f_equal.
  - unfold cosine_log. rewrite andb_comm. reflexivity.
  - f_equal. destruct vecA, vecB; try reflexivity. apply spec_cosine_comm.
Qed.

(** X6. Negating both vectors does not change the score. *)
Theorem cosineSimilarity_negate_both (a b : list float) :
  cosineSimilarity (VArr (map PrimFloat.opp a)) (VArr (map PrimFloat.opp b))
  = cosineSimilarity (VArr a) (VArr b).
Proof.
  rewrite !cosineSimilarity_arrays. f_equal. apply spec_cosine_negate_both.
Qed.

(** X7. Negating one vector negates the score; only a score that is a zero
    or NaN may stay as it is (a zero dot product stays [+0] when its terms
    are negated). *)
Theorem cosineSimilarity_negate_one (a b : list float) :
  exists c,
    cosineSimilarity (VArr a) (VArr b) = ret c
    /\ (cosineSimilarity (VArr a) (VArr (map PrimFloat.opp b)) = ret (- c)%float
        \/ (cosineSimilarity (VArr a) (VArr (map PrimFloat.opp b)) = ret c
            /\ (PrimFloat.eqb c 0 = true \/ PrimFloat.is_nan c = true))).
Proof.
  fold (negate b). rewrite !cosineSimilarity_arrays, spec_cosine_negate_r.
  unfold spec_cosine.
  destruct (Nat.eqb (common_prefix a b) 0);
    [ eexists; split; [reflexivity | right; split; [reflexivity | left; reflexivity]] | ].
  destruct (PrimFloat.eqb (spec_normA a b) 0 || PrimFloat.eqb (spec_normB a b) 0);
    [ eexists; split; [reflexivity | right; split; [reflexivity | left; reflexivity]] | ].
  eexists. split; [reflexivity | ].
  destruct (sum_neg_any (fun i => (index a i * index b i)%float) (common_prefix a b))
    as [Heq Hnz].
  fold (spec_dot a b) in Heq, Hnz.
  destruct (Prim2SF (spec_dot a b)) as [s | s | | s m e] eqn:Hd.
  - right.
    assert (s = false) by (destruct s; [exfalso; apply Hnz; reflexivity | reflexivity]).
    subst s. cbn [SFnegz] in Heq. rewrite <- Hd in Heq. apply Prim2SF_inj in Heq.
    rewrite Heq. split; [reflexivity | ]. apply div_zero_l. exact Hd.
  - left. cbn [SFnegz] in Heq. rewrite <- Hd, <- opp_spec in Heq.
    apply Prim2SF_inj in Heq. rewrite Heq, div_opp_l. reflexivity.
  - left. cbn [SFnegz] in Heq. rewrite <- Hd, <- opp_spec in Heq.
    apply Prim2SF_inj in Heq. rewrite Heq, div_opp_l. reflexivity.
  - left. cbn [SFnegz] in Heq. rewrite <- Hd, <- opp_spec in Heq.
    apply Prim2SF_inj in Heq. rewrite Heq, div_opp_l. reflexivity.
Qed.

(* ================================================================== *)
(** * Further properties of the ranking *)

Section Ranking.

Lemma sort_insert_same_score (s : float) (x : ScoredDocument)
    (l : list ScoredDocument) :
  filter (same_score s) (sort_insert by_score_desc x l)
  = filter (same_score s) (x :: l).
Proof.
  induction l as [ | y l IH]; cbn [sort_insert]; [reflexivity | ].
  unfold by_score_desc at 1. rewrite sub_pos_ltb.
  destruct (PrimFloat.ltb (score x) (score y)) eqn:Hlt; [ | reflexivity ].
  cbn [filter] in *. rewrite IH.
  destruct (same_score s x) eqn:Hx, (same_score s y) eqn:Hy; try reflexivity.
  unfold same_score in Hx, Hy. rewrite (ltb_eqb_false _ _ _ Hx Hy) in Hlt.
  discriminate.
Qed.

Lemma sort_same_score (s : float) (l : list ScoredDocument) :
  filter (same_score s) (sort by_score_desc l) = filter (same_score s) l.
Proof.
  induction l as [ | x l IH]; cbn [sort fold_right]; [reflexivity | ].
  fold (sort by_score_desc l). rewrite sort_insert_same_score.
  cbn [filter]. rewrite IH. reflexivity.
Qed.

Lemma score_ge_trans (a b c : ScoredDocument) :
  score_ge a b -> score_ge b c -> score_ge a c.
Proof. unfold score_ge. intros Hab Hbc. exact (leb_trans _ _ _ Hbc Hab). Qed.

Lemma retrieved_sorted (svc : embedding_service) (documents : list Document) :
  Sorted score_ge (retrieved svc documents).
Proof.
  unfold retrieved. destruct (isArray (embedding_of (for_query svc))).
  - apply sort_sorted, passes_not_nan.
  - constructor.
Qed.

End Ranking.

(** X8. Ties keep document order: among the returned documents, those whose
    scores compare equal appear in the order the documents were given (the
    sort is stable and the comparator never moves equal scores). *)
Theorem retriever_ties_keep_document_order
    (svc : embedding_service) (query : string) (documents : list Document)
    (s : float) :
  exists out,
    outcome (retrieveRelevantDocsWithEmbeddings svc query documents) = Normal out
    /\ filter (fun d => PrimFloat.eqb (score d) s) out
       = filter (fun d => PrimFloat.eqb (score d) s)
           (filter (fun d => PrimFloat.ltb 0.5 (score d)) (scored svc documents)).
Proof.
  exists (retrieved svc documents). rewrite retrieve_spec.
  split; [reflexivity | ]. unfold retrieved, scored.
  destruct (isArray (embedding_of (for_query svc))) eqn:Hq.
  - apply (sort_same_score s).
  - fold passes. rewrite scored_from_no_query by assumption. reflexivity.
Qed.

(** X9. Best first: every returned document scores at least as high as every
    document returned after it; in particular the first one has the highest
    score of the list. *)
Theorem retriever_best_first
    (svc : embedding_service) (query : string) (documents : list Document) :
  exists out,
    outcome (retrieveRelevantDocsWithEmbeddings svc query documents) = Normal out
    /\ StronglySorted (fun a b => PrimFloat.leb (score b) (score a) = true) out
    /\ (forall best rest, out = best :: rest ->
          Forall (fun d => PrimFloat.leb (score d) (score best) = true) rest).
Proof.
  exists (retrieved svc documents). rewrite retrieve_spec.
  split; [reflexivity | ].
  assert (Hs : StronglySorted score_ge (retrieved svc documents)).
  { apply Sorted_StronglySorted; [ | apply retrieved_sorted ].
    intros a b c. apply score_ge_trans. }
  split; [exact Hs | ].
  intros best rest Hout. rewrite Hout in Hs.
  inversion Hs; subst. assumption.
Qed.

(* ================================================================== *)
(** * Further properties of the retriever's calls *)

Section Requests.

Lemma filter_none {A} (f : A -> bool) (P : A -> Prop) (l : list A) :
  (forall x, P x -> f x = false) -> Forall P l -> filter f l = [].
Proof.
  intros Hf. induction 1 as [ | x l Hx _ IH]; [reflexivity | ].
  cbn [filter]. rewrite (Hf x Hx). exact IH.
Qed.

Lemma embedding_log_events (o : fetch_outcome) (text : string) :
  Forall console_or_embedding (embedding_log o text).
Proof.
  unfold embedding_log. destruct (call_failed o); repeat constructor.
Qed.

Lemma cosine_log_events (a b : value) : Forall console_or_embedding (cosine_log a b).
Proof.
  unfold cosine_log. destruct (isArray a && isArray b); repeat constructor.
Qed.

Lemma scoring_log_events (svc : nat -> fetch_outcome) (q : value)
    (documents : list Document) :
  forall i, Forall console_or_embedding (scoring_log svc i q documents).
Proof.
  induction documents as [ | doc rest IH]; intros i; cbn [scoring_log].
  - constructor.
  - apply Forall_app. split; [apply embedding_log_events | ].
    apply Forall_app. split; [apply cosine_log_events | apply IH].
Qed.

Lemma retrieval_log_events (svc : embedding_service) (query : string)
    (documents : list Document) :
  Forall console_or_embedding (retrieval_log svc query documents).
Proof.
  unfold retrieval_log. constructor; [exact I | ].
  apply Forall_app. split; [apply embedding_log_events | ].
  destruct (isArray (embedding_of (for_query svc))).
  - constructor; [exact I | apply scoring_log_events].
  - repeat constructor.
Qed.

Lemma load_log_events (listing : list dir_entry) :
  Forall console_or_embedding (load_log listing).
Proof.
  unfold load_log. induction (filter is_json listing) as [ | e l IH]; cbn [flat_map].
  - constructor.
  - apply Forall_app. split; [ | exact IH ].
    destruct (state e); repeat constructor.
Qed.

Lemma scoring_log_requests (svc : nat -> fetch_outcome) (q : value)
    (documents : list Document) :
  forall i,
    filter is_embedding_request (scoring_log svc i q documents)
    = map (fun d => EmbeddingRequest (content d)) documents.
Proof.
  induction documents as [ | doc rest IH]; intros i; [reflexivity | ].
  cbn [scoring_log map]. rewrite !filter_app, IH.
  unfold embedding_log, cosine_log.
  destruct (call_failed (svc i)), (isArray q && isArray (embedding_of (svc i)));
    reflexivity.
Qed.

Lemma nth_error_scored_from (svc : nat -> fetch_outcome) (q : value)
    (documents : list Document) :
  forall i k,
    nth_error (scored_from svc i q documents) k
    = option_map (fun doc => mkScored doc (similarity q (embedding_of (svc (i + k)))))
                 (nth_error documents k).
Proof.
  induction documents as [ | doc rest IH]; intros i [ | k]; cbn [scored_from nth_error option_map];
    try reflexivity.
  - rewrite Nat.add_0_r. reflexivity.
  - rewrite IH, Nat.add_succ_r. reflexivity.
Qed.

Lemma scored_from_docs (svc : nat -> fetch_outcome) (q : value)
    (documents : list Document) :
  forall i, map doc_of (scored_from svc i q documents) = documents.
Proof.
  induction documents as [ | doc rest IH]; intros i; cbn [scored_from map doc_of];
    [reflexivity | rewrite IH; reflexivity].
Qed.

End Requests.

(** X3. One request per text, no retry: a call of [generateEmbeddings] makes
    exactly one request whatever its outcome, and when the query embedding
    is an array the retriever requests the query first and then the content
    of every document, once each and in document order. *)
Theorem retriever_requests_each_text_once
    (svc : embedding_service) (query : string) (documents : list Document)
    (v : value) :
  outcome (getEmbedding (for_query svc) query) = Normal v ->
  isArray v = true ->
  filter is_embedding_request
    (trace (retrieveRelevantDocsWithEmbeddings svc query documents))
  = EmbeddingRequest query :: map (fun d => EmbeddingRequest (content d)) documents
  /\ (forall o text,
        filter is_embedding_request (trace (generateEmbeddings o text))
        = [EmbeddingRequest text]).
Proof.
  rewrite getEmbedding_spec, retrieve_spec. cbn [outcome trace fst snd].
  intros Hv Ha. injection Hv as Hv. subst v. split.
  - unfold retrieval_log. rewrite Ha. cbn [filter is_embedding_request].
    rewrite filter_app. cbn [filter is_embedding_request].
    rewrite scoring_log_requests.
    unfold embedding_log. destruct (call_failed (for_query svc)); reflexivity.
  - intros o text. rewrite generateEmbeddings_spec. cbn [trace fst].
    destruct (call_failed o); reflexivity.
Qed.

Lemma retriever_requests_witness :
  let answers v := Response true 200 (JsonResult (FirstItem (VArr v))) in
  let svc := mkService (answers [1; 0]%float) (fun _ => FetchRejects) in
  filter is_embedding_request
    (trace (retrieveRelevantDocsWithEmbeddings svc "q"
              [mkDocument "a.json" "A"; mkDocument "b.json" "A"]))
  = [EmbeddingRequest "q"; EmbeddingRequest "A"; EmbeddingRequest "A"].
Proof.
  cbv zeta.
  refine (proj1 (retriever_requests_each_text_once _ "q" _ (VArr [1; 0]%float) _ _));
    reflexivity.
Defined.

(** X4. Isolation: the documents are scored in the order given, each with its
    own fields, and the entry of a document depends on the outcome of its own
    embedding call only: two services that agree on the call for document [k]
    give document [k] the same entry, whatever the other calls do. *)
Theorem scoring_isolates_documents
    (f g : nat -> fetch_outcome) (queryEmbedding : value)
    (documents : list Document) (k : nat) :
  f k = g k ->
  exists ds1 ds2,
    outcome (scoreDocuments f 0 queryEmbedding documents) = Normal ds1
    /\ outcome (scoreDocuments g 0 queryEmbedding documents) = Normal ds2
    /\ map doc_of ds1 = documents
    /\ map doc_of ds2 = documents
    /\ nth_error ds1 k = nth_error ds2 k.
Proof.
  intros Hk. rewrite !scoreDocuments_spec. cbn [outcome snd].
  eexists. eexists. split; [reflexivity | ]. split; [reflexivity | ].
  rewrite !scored_from_docs, !nth_error_scored_from. cbn [Nat.add].
  rewrite Hk. repeat split.
Qed.

Lemma scoring_isolates_witness :
  let answers v := Response true 200 (JsonResult (FirstItem (VArr v))) in
  let f := fun i => match i with 0 => FetchRejects | _ => answers [1; 0]%float end in
  let g := fun i => match i with 0 => answers [1; 0]%float | _ => answers [1; 0]%float end in
  exists ds1 ds2,
    outcome (scoreDocuments f 0 (VArr [1; 0]%float)
               [mkDocument "a.json" "A"; mkDocument "b.json" "B"]) = Normal ds1
    /\ outcome (scoreDocuments g 0 (VArr [1; 0]%float)
                  [mkDocument "a.json" "A"; mkDocument "b.json" "B"]) = Normal ds2
    /\ map doc_of ds1 = [mkDocument "a.json" "A"; mkDocument "b.json" "B"]
    /\ map doc_of ds2 = [mkDocument "a.json" "A"; mkDocument "b.json" "B"]
    /\ nth_error ds1 1 = nth_error ds2 1.
Proof.
  cbv zeta. apply scoring_isolates_documents. reflexivity.
Defined.

(* ================================================================== *)
(** * Further properties of the document loader *)

Section Loader.

Lemma string_length_append (p q : string) :
  String.length (p ++ q) = String.length p + String.length q.
Proof. induction p as [ | c p IH]; cbn; [reflexivity | rewrite IH; reflexivity]. Qed.

Lemma substring_all (s : string) : substring 0 (String.length s) s = s.
Proof. induction s as [ | c s IH]; cbn; [reflexivity | rewrite IH; reflexivity]. Qed.

(** [endsWith] holds exactly of the strings that are some text followed by
    the suffix. *)
Lemma endsWith_iff (s suffix : string) :
  endsWith s suffix = true <-> exists p, s = (p ++ suffix)%string.
Proof.
  induction s as [ | c s IH].
  - destruct suffix as [ | d suffix]; cbn.
    + split; [ intros _; exists EmptyString; reflexivity | reflexivity ].
    + split; [ discriminate | intros ([ | c p] & H); discriminate ].
  - unfold endsWith in *. cbn [String.length].
    destruct (Nat.leb_spec (String.length suffix) (String.length s)) as [Hle | Hgt].
    + rewrite Nat.sub_succ_l by assumption.
      replace (Nat.leb (String.length suffix) (S (String.length s))) with true
        by (symmetry; apply Nat.leb_le; lia).
      cbn [substring]. cbn [andb] in *. rewrite IH. split.
      * intros (p & ->). exists (String c p). reflexivity.
      * intros ([ | c' p] & H); cbn in H.
        -- subst suffix. cbn [String.length] in Hle. lia.
        -- injection H as _ H. exists p. exact H.
    + destruct (Nat.eq_dec (String.length suffix) (S (String.length s))) as [Heq | Hne].
      * rewrite Heq, Nat.leb_refl, Nat.sub_diag. cbn [andb].
        change (S (String.length s)) with (String.length (String c s)).
        rewrite substring_all, String.eqb_eq. split.
        -- intros ->. exists EmptyString. reflexivity.
        -- intros (p & H). pose proof (f_equal String.length H) as Hlen.
           rewrite string_length_append in Hlen. cbn [String.length] in Hlen.
           destruct p; [exact H | cbn [String.length] in Hlen; lia].
      * replace (Nat.leb (String.length suffix) (S (String.length s))) with false
          by (symmetry; apply Nat.leb_gt; lia).
        cbn [andb]. split; [discriminate | ].
        intros (p & H). pose proof (f_equal String.length H) as Hlen.
        rewrite string_length_append in Hlen. cbn [String.length] in Hlen. lia.
Qed.

Lemma loaded_filenames (listing : list dir_entry) :
  map filename (loaded listing)
  = filter (fun f => endsWith f ".json") (map name listing).
Proof.
  unfold loaded, is_json. induction listing as [ | e l IH]; [reflexivity | ].
  cbn [filter map]. destruct (endsWith (name e) ".json"); cbn [map filename];
    rewrite IH; reflexivity.
Qed.

Lemma load_log_failures (listing : list dir_entry) :
  load_log listing
  = map (fun e => ConsoleError ("Error loading " ++ name e ++ ":"))
        (filter (fun e => endsWith (name e) ".json" && load_fails (state e)) listing).
Proof.
  unfold load_log, is_json. induction listing as [ | e l IH]; [reflexivity | ].
  cbn [filter]. destruct (endsWith (name e) ".json"); cbn [andb flat_map]; [ | exact IH ].
  rewrite IH. destruct (state e); reflexivity.
Qed.

Lemma load_log_errors (listing : list dir_entry) :
  Forall (fun ev => is_console_error ev = true) (load_log listing).
Proof.
  rewrite load_log_failures. apply Forall_forall. intros ev Hev.
  apply in_map_iff in Hev as (e & <- & _). reflexivity.
Qed.

End Loader.

(** X10. Which files are loaded: the loader returns a document named [n]
    exactly when the listing has an entry named [n] and [n] is some text
    (possibly none) followed by [.json]; the test is on the end of the name
    and is case-sensitive. *)
Theorem loader_takes_names_ending_in_json (listing : list dir_entry) :
  exists docs,
    outcome (loadDocuments listing) = Normal docs
    /\ (forall n, In n (map filename docs) <->
          In n (map name listing) /\ exists p, n = (p ++ ".json")%string)
    /\ endsWith "a.JSON" ".json" = false
    /\ endsWith ".json" ".json" = true.
Proof.
  exists (loaded listing). rewrite loadDocuments_spec.
  split; [reflexivity | ]. split; [ | split; reflexivity ].
  intros n. rewrite loaded_filenames, filter_In, endsWith_iff. reflexivity.
Qed.

(** X11. What the loader prints: exactly one error line for every [.json]
    file that cannot be read or parsed (or parses to null), naming the file,
    in listing order, and nothing else; a file that parses but has no [data]
    field gets an empty content without any message. *)
Theorem loader_reports_each_failed_file (listing : list dir_entry) :
  trace (loadDocuments listing)
  = map (fun e => ConsoleError ("Error loading " ++ name e ++ ":"))
        (filter (fun e => endsWith (name e) ".json"
                          && match state e with
                             | Unreadable | NotJson | JsonNull => true
                             | JsonValue _ => false
                             end)
                listing)
  /\ (forall n, trace (loadDocuments [mkEntry n (JsonValue None)]) = []).
Proof.
  rewrite loadDocuments_spec. cbn [trace fst]. split.
  - rewrite load_log_failures. reflexivity.
  - intros n. rewrite loadDocuments_spec. cbn [trace fst].
    rewrite load_log_failures. cbn [filter name state load_fails].
    rewrite andb_false_r. reflexivity.
Qed.

(* ================================================================== *)
(** * Further properties of the answer generator and the orchestrator *)

Section Orchestration.

Lemma main_log_tail (w : world) :
  exists tail,
    main_log w
    = (load_log (listing w) ++ [LogDocuments (loaded (listing w))])
      ++ Question "Ask a question: "
      :: retrieval_log (embeddings w) (typed w) (loaded (listing w))
      ++ tail ++ [RlClose]
    /\ filter is_close tail = []
    /\ filter is_question tail = []
    /\ match retrieved (embeddings w) (loaded (listing w)) with
       | [] => tail = [ConsoleLog "No relevant documents found."]
       | rel =>
         tail = answer_log (chat w) (typed w) (context_of rel)
                ++ [LogContextFrom (join ", " (map (fun d => filename (doc_of d)) rel));
                    LogAnswer (answer_of (chat w))]
       end.
Proof.
  unfold main_log.
  destruct (retrieved (embeddings w) (loaded (listing w))) as [ | d rel].
  - exists [ConsoleLog "No relevant documents found."].
    rewrite <- !app_assoc. repeat split.
  - exists (answer_log (chat w) (typed w) (context_of (d :: rel))
            ++ [LogContextFrom (join ", " (map (fun d => filename (doc_of d)) (d :: rel)));
                LogAnswer (answer_of (chat w))]).
    split; [ | split; [ | split; [ | reflexivity ] ] ].
    + rewrite <- !app_assoc. reflexivity.
    + rewrite filter_app. unfold answer_log. destruct (chat w); reflexivity.
    + rewrite filter_app. unfold answer_log. destruct (chat w); reflexivity.
Qed.

Lemma retrieved_none_when_scores_zero (svc : embedding_service)
    (documents : list Document) :
  Forall (fun d => score d = 0%float) (scored svc documents) ->
  retrieved svc documents = [].
Proof.
  intros Hz. unfold retrieved.
  destruct (isArray (embedding_of (for_query svc))); [ | reflexivity ].
  rewrite (filter_passes_zero _ Hz). reflexivity.
Qed.

Lemma scored_from_all_failed (svc : nat -> fetch_outcome) (q : value)
    (documents : list Document) :
  (forall k, call_failed (svc k) = true) ->
  forall i, Forall (fun d => score d = 0%float) (scored_from svc i q documents).
Proof.
  intros Hf. induction documents as [ | doc rest IH]; intros i; cbn [scored_from];
    constructor; [ | apply IH ].
  cbn [score]. rewrite (embedding_of_failed _ (Hf i)). apply similarity_fallback_r.
Qed.

Lemma loaded_none (listing : list dir_entry) :
  (forall e, In e listing -> endsWith (name e) ".json" = false) ->
  loaded listing = [].
Proof.
  intros H. unfold loaded, is_json.
  replace (filter (fun e => endsWith (name e) ".json") listing) with (@nil dir_entry);
    [reflexivity | ].
  symmetry. induction listing as [ | e l IH]; [reflexivity | ].
  cbn [filter]. rewrite (H e (or_introl eq_refl)). apply IH.
  intros e' He'. apply H. right. exact He'.
Qed.

End Orchestration.

(** X2. On a run in which the documents are loaded, the question is answered,
    the retriever returns and the answer generator returns, the orchestrator
    asks its question exactly once, right after loading and printing the
    documents and before any embedding or chat request, and closes the
    readline interface exactly once, as its last action. *)
Theorem main_asks_once_and_closes_last
    (w : world) (documents : list Document) (query : string)
    (relevantDocs : list ScoredDocument) (answer : string) :
  outcome (loadDocuments (listing w)) = Normal documents ->
  outcome (question w "Ask a question: ") = Normal query ->
  outcome (retrieveRelevantDocsWithEmbeddings (embeddings w) query documents)
  = Normal relevantDocs ->
  outcome (generateAnswerWithOpenAI (chat w) query
             (String.concat (newline ++ newline)
                (map (fun d => content (doc_of d)) relevantDocs)))
  = Normal answer ->
  (exists after,
      trace (main w)
      = trace (loadDocuments (listing w))
        ++ LogDocuments documents :: Question "Ask a question: " :: after ++ [RlClose]
      /\ filter is_question after = []
      /\ filter is_close after = [])
  /\ filter is_embedding_request (trace (loadDocuments (listing w))) = []
  /\ filter is_chat_request (trace (loadDocuments (listing w))) = []
  /\ filter is_close (trace (loadDocuments (listing w))) = []
  /\ filter is_question (trace (loadDocuments (listing w))) = []
  /\ filter is_question (trace (main w)) = [Question "Ask a question: "]
  /\ filter is_close (trace (main w)) = [RlClose].
Proof.
  rewrite loadDocuments_spec. cbn [outcome trace fst snd].
  intros Hd _ _ _. injection Hd as <-.
  rewrite main_spec. cbn [trace fst].
  destruct (main_log_tail w) as (tail & -> & Hclose & Hquestion & _).
  assert (Hload : forall f, (forall ev, is_console_error ev = true -> f ev = false) ->
                    filter f (load_log (listing w)) = []).
  { intros f Hf. apply (filter_none f _ _ Hf), load_log_errors. }
  assert (Hretr : forall f, (forall ev, console_or_embedding ev -> f ev = false) ->
                    filter f (retrieval_log (embeddings w) (typed w) (loaded (listing w))) = []).
  { intros f Hf. apply (filter_none f _ _ Hf), retrieval_log_events. }
  split; [ | repeat split ].
  - exists (retrieval_log (embeddings w) (typed w) (loaded (listing w)) ++ tail).
    split; [ | split ].
    + rewrite <- !app_assoc. reflexivity.
    + rewrite filter_app, Hquestion, Hretr by (intros [ ]; cbn; tauto). reflexivity.
    + rewrite filter_app, Hclose, Hretr by (intros [ ]; cbn; tauto). reflexivity.
  - apply Hload. intros [ ]; cbn; congruence.
  - apply Hload. intros [ ]; cbn; congruence.
  - apply Hload. intros [ ]; cbn; congruence.
  - apply Hload. intros [ ]; cbn; congruence.
  - rewrite !filter_app. cbn [filter is_question]. rewrite !filter_app, Hquestion.
    rewrite Hload by (intros [ ]; cbn; congruence).
    rewrite Hretr by (intros [ ]; cbn; tauto).
    reflexivity.
  - rewrite !filter_app. cbn [filter is_close]. rewrite !filter_app, Hclose.
    rewrite Hload by (intros [ ]; cbn; congruence).
    rewrite Hretr by (intros [ ]; cbn; tauto).
    reflexivity.
Qed.

Lemma main_asks_once_witness :
  let answers v := Response true 200 (JsonResult (FirstItem (VArr v))) in
  let w :=
    mkWorld [mkEntry "broken.json" NotJson;
             mkEntry "b.json" (JsonValue (Some "B"%string))]
            "q"
            (mkService (answers [1; 0]%float) (fun _ => answers [1; 0]%float))
            (ChatAnswer "ok") in
  filter is_question (trace (main w)) = [Question "Ask a question: "]
  /\ filter is_close (trace (main w)) = [RlClose].
Proof.
  cbv zeta.
  apply (main_asks_once_and_closes_last
           (mkWorld [mkEntry "broken.json" NotJson;
                     mkEntry "b.json" (JsonValue (Some "B"%string))]
                    "q"
                    (mkService (Response true 200 (JsonResult (FirstItem (VArr [1; 0]%float))))
                               (fun _ => Response true 200
                                           (JsonResult (FirstItem (VArr [1; 0]%float)))))
                    (ChatAnswer "ok"))
           [mkDocument "broken.json" ""; mkDocument "b.json" "B"] "q"
           [mkScored (mkDocument "broken.json" "") 1%float;
            mkScored (mkDocument "b.json" "B") 1%float]
           "ok" eq_refl eq_refl eq_refl eq_refl).
Defined.

(** X12. When some document is relevant, the orchestrator ends by printing
    the file names of the relevant documents, best first and joined by
    [", "], then the answer the generator returned (the apology when the
    chat call failed), and then closes. *)
Theorem main_prints_sources_then_answer
    (w : world) (documents : list Document) (relevantDocs : list ScoredDocument) :
  outcome (loadDocuments (listing w)) = Normal documents ->
  outcome (retrieveRelevantDocsWithEmbeddings (embeddings w) (typed w) documents)
  = Normal relevantDocs ->
  relevantDocs <> [] ->
  exists before answer,
    outcome (generateAnswerWithOpenAI (chat w) (typed w)
               (String.concat (newline ++ newline)
                  (map (fun d => content (doc_of d)) relevantDocs)))
    = Normal answer
    /\ trace (main w)
       = before
         ++ [ LogContextFrom
                (String.concat ", " (map (fun d => filename (doc_of d)) relevantDocs));
              LogAnswer answer; RlClose ].
Proof.
  rewrite loadDocuments_spec. cbn [outcome snd]. intros Hd. injection Hd as <-.
  rewrite retrieve_spec. cbn [outcome snd]. intros Hr. injection Hr as <-.
  intros Hne. rewrite main_spec, generateAnswer_spec. cbn [outcome trace fst snd].
  unfold main_log.
  destruct (retrieved (embeddings w) (loaded (listing w))) as [ | d rel];
    [congruence | ].
  exists (load_log (listing w)
          ++ [LogDocuments (loaded (listing w)); Question "Ask a question: "]
          ++ retrieval_log (embeddings w) (typed w) (loaded (listing w))
          ++ answer_log (chat w) (typed w) (context_of (d :: rel))).
  exists (answer_of (chat w)). split; [reflexivity | ].
  rewrite <- !app_assoc. reflexivity.
Qed.

Lemma main_prints_sources_witness :
  let answers v := Response true 200 (JsonResult (FirstItem (VArr v))) in
  let w :=
    mkWorld [mkEntry "a.json" (JsonValue (Some "A"%string));
             mkEntry "b.json" (JsonValue (Some "B"%string))]
            "q"
            (mkService (answers [1; 0]%float)
                       (fun i => match i with
                                 | 0 => answers [3; 4]%float
                                 | _ => answers [1; 0]%float
                                 end))
            ChatRejects in
  exists before answer,
    outcome (generateAnswerWithOpenAI (chat w) (typed w)
               (String.concat (newline ++ newline) ["B"; "A"]%string))
    = Normal answer
    /\ trace (main w)
       = before ++ [LogContextFrom "b.json, a.json"; LogAnswer answer; RlClose].
Proof.
  cbv zeta.
  refine (main_prints_sources_then_answer _
            [mkDocument "a.json" "A"; mkDocument "b.json" "B"]
            [mkScored (mkDocument "b.json" "B") 1%float;
             mkScored (mkDocument "a.json" "A") 0.6%float] _ _ _);
    [reflexivity | reflexivity | discriminate].
Defined.

(** X13. When nothing can be retrieved the program says so: on a run in
    which the documents are loaded and the retriever returns, if the query's
    embedding call failed, or every document's embedding call failed (an
    unreachable service, a missing key), or the directory has no [.json]
    file, then the retriever's result is empty and the orchestrator ends by
    printing the no-relevant-documents message and closing, without any chat
    request. *)
Theorem main_reports_no_documents_when_embedding_is_down
    (w : world) (documents : list Document) (relevantDocs : list ScoredDocument) :
  outcome (loadDocuments (listing w)) = Normal documents ->
  outcome (retrieveRelevantDocsWithEmbeddings (embeddings w) (typed w) documents)
  = Normal relevantDocs ->
  call_failed (for_query (embeddings w)) = true
  \/ (forall k, call_failed (for_document (embeddings w) k) = true)
  \/ (forall e, In e (listing w) -> endsWith (name e) ".json" = false) ->
  relevantDocs = []
  /\ (exists before,
         trace (main w)
         = before ++ [ConsoleLog "No relevant documents found."; RlClose])
  /\ filter is_chat_request (trace (main w)) = [].
Proof.
  rewrite loadDocuments_spec. cbn [outcome snd]. intros Hd. injection Hd as <-.
  rewrite retrieve_spec. cbn [outcome snd]. intros Hr. injection Hr as <-.
  intros H. rewrite main_spec. cbn [trace fst].
  assert (Hnone : retrieved (embeddings w) (loaded (listing w)) = []).
  { destruct H as [Hq | [Hd | Hl]].
    - apply retrieved_none_when_scores_zero. unfold scored.
      rewrite (embedding_of_failed _ Hq). apply scored_from_fallback.
    - apply retrieved_none_when_scores_zero. unfold scored.
      apply scored_from_all_failed. exact Hd.
    - rewrite (loaded_none _ Hl). unfold retrieved, scored. cbn [scored_from filter].
      destruct (isArray (embedding_of (for_query (embeddings w)))); reflexivity. }
  split; [exact Hnone | ].
  unfold main_log. rewrite Hnone. split.
  - eexists. rewrite !app_assoc. reflexivity.
  - rewrite !filter_app, load_log_no_chat, retrieval_log_no_chat. reflexivity.
Qed.

Lemma main_reports_no_documents_witness :
  let w :=
    mkWorld [mkEntry "a.json" (JsonValue (Some "A"%string))] "q"
            (mkService FetchRejects (fun _ => Response false 401 JsonRejects))
            (ChatAnswer "unused") in
  (exists before,
      trace (main w)
      = before ++ [ConsoleLog "No relevant documents found."; RlClose])
  /\ filter is_chat_request (trace (main w)) = [].
Proof.
  cbv zeta.
  refine (proj2 (main_reports_no_documents_when_embedding_is_down _
                   [mkDocument "a.json" "A"] [] _ _ _));
    [reflexivity | reflexivity | left; reflexivity].
Defined.

(** X14. Every loaded document is embedded on every run: when the query
    embedding is an array, the embedding requests of a run are the typed
    question followed by the content of each loaded document, in order; a
    file that failed to load is still sent, as the empty text. *)
Theorem main_embeds_every_loaded_document
    (w : world) (documents : list Document) (v : value) :
  outcome (loadDocuments (listing w)) = Normal documents ->
  outcome (getEmbedding (for_query (embeddings w)) (typed w)) = Normal v ->
  isArray v = true ->
  filter is_embedding_request (trace (main w))
  = EmbeddingRequest (typed w)
    :: map (fun d => EmbeddingRequest (content d)) documents.
Proof.
  rewrite loadDocuments_spec, getEmbedding_spec. cbn [outcome snd].
  intros Hd Hv Ha. injection Hd as <-. injection Hv as <-.
  rewrite main_spec. cbn [trace fst].
  destruct (main_log_tail w) as (tail & -> & _ & _ & Htail).
  rewrite !filter_app. cbn [filter is_embedding_request]. rewrite !filter_app.
  assert (Hload : filter is_embedding_request (load_log (listing w)) = []).
  { apply (filter_none _ (fun ev => is_console_error ev = true));
      [ intros [ ]; cbn; congruence | apply load_log_errors ]. }
  rewrite Hload.
  unfold retrieval_log. rewrite Ha. cbn [filter is_embedding_request].
  rewrite filter_app. cbn [filter is_embedding_request].
  rewrite scoring_log_requests.
  assert (Ht : filter is_embedding_request tail = []).
  { destruct (retrieved (embeddings w) (loaded (listing w))); rewrite Htail.
    - reflexivity.
    - rewrite filter_app. unfold answer_log. destruct (chat w); reflexivity. }
  rewrite Ht. unfold embedding_log.
  destruct (call_failed (for_query (embeddings w))); cbn; rewrite app_nil_r; reflexivity.
Qed.

Lemma main_embeds_witness :
  let answers v := Response true 200 (JsonResult (FirstItem (VArr v))) in
  let w :=
    mkWorld [mkEntry "a.json" (JsonValue (Some "A"%string));
             mkEntry "broken.json" NotJson;
             mkEntry "notes.txt" (JsonValue (Some "N"%string))]
            "q"
            (mkService (answers [1; 0]%float) (fun _ => answers [0; 1]%float))
            (ChatAnswer "unused") in
  filter is_embedding_request (trace (main w))
  = [EmbeddingRequest "q"; EmbeddingRequest "A"; EmbeddingRequest ""].
Proof.
  cbv zeta.
  refine (main_embeds_every_loaded_document _
            [mkDocument "a.json" "A"; mkDocument "broken.json" ""]
            (VArr [1; 0]%float) _ _ _); reflexivity.
Defined.
